(** * The N-1 contingency harness of Chapter 8 (case studies 1 and 2)

    A shallow embedding of [Chapter_8_CS_2.py] (the SCOPF script) and of the
    shared-profile prelude of [Chapter_8_CS_1.py].

    Conventions of the embedding.
    - Python floats are read as rationals ([Q]); a missing cell or NaN of a
      pandas frame is an absent key.
    - The optimal-power-flow solver ([Network.optimize], GLPK behind it) is
      outside the repository: it is a [Variable] of the section that models
      the script, and so is the normal-variate generator of numpy.
    - Python objects that the script mutates live in an explicit heap;
      files written by the script live in an explicit file system. *)

From Stdlib Require Import QArith Qminmax Qround DecimalString Lqa.
From stdpp Require Import base option list sorting strings gmap.

Local Open Scope string_scope.
Local Open Scope list_scope.

(** ** Frames: [generators_t.p] and the tables derived from it *)

Module Frame.

(** A snapshot label; the scripts index hourly periods from a start date. *)
Definition Snapshot := nat.

(** One row: column name to value, in column order. *)
Definition Row := list (string * Q).

(** Rows in index order, each with its label; labels may repeat (after
    [pd.concat]). *)
Definition DataFrame := list (Snapshot * Row).

Fixpoint row_get (u : string) (r : Row) : option Q :=
  match r with
  | [] => None
  | (c, v) :: r' => if String.eqb c u then Some v else row_get u r'
  end.

(** [d.at[t, u]]: the cell of the first row labelled [t]. *)
Fixpoint df_at (d : DataFrame) (t : Snapshot) (u : string) : option Q :=
  match d with
  | [] => None
  | (t', r) :: d' => if Nat.eqb t' t then row_get u r else df_at d' t u
  end.

(** Every non-missing value of column [u] in the rows labelled [t]. *)
Fixpoint cells (d : DataFrame) (t : Snapshot) (u : string) : list Q :=
  match d with
  | [] => []
  | (t', r) :: d' =>
      if Nat.eqb t' t
      then match row_get u r with
           | Some v => v :: cells d' t u
           | None => cells d' t u
           end
      else cells d' t u
  end.

(** [pd.concat(frames)]: rows stacked in order; a column a frame lacks is
    missing (NaN) in that frame's rows. *)
Definition pd_concat (ds : list DataFrame) : DataFrame := concat ds.

Definition df_columns (d : DataFrame) : list string :=
  remove_dups (flat_map (fun tr => map fst (snd tr)) d).

(** Group keys of [groupby(level=0)]: the distinct labels, sorted. *)
Definition group_keys (d : DataFrame) : list Snapshot :=
  merge_sort Nat.le (remove_dups (map fst d)).

(** Maximum of a list, skipping nothing; [None] (NaN) on the empty list. *)
Definition max_of (vs : list Q) : option Q :=
  match vs with
  | [] => None
  | v :: vs' => Some (fold_left Qmax vs' v)
  end.

(** [d.groupby(level=0).max()]: one row per group key, each column holding
    the maximum of its non-missing values in the group. *)
Definition groupby_level0_max (d : DataFrame) : DataFrame :=
  map (fun t =>
         (t, flat_map (fun u => match max_of (cells d t u) with
                                | Some m => [(u, m)]
                                | None => []
                                end) (df_columns d)))
      (group_keys d).

(** [d.filter(like=s)]: keep the columns whose name contains [s]. *)
Fixpoint contains (s name : string) : bool :=
  String.prefix s name ||
  match name with
  | EmptyString => false
  | String _ rest => contains s rest
  end.

Definition filter_like (s : string) (d : DataFrame) : DataFrame :=
  map (fun tr => (fst tr, filter (fun cv => contains s (fst cv)) (snd tr))) d.

Definition Qsum (vs : list Q) : Q := fold_right Qplus 0%Q vs.

(** [d.sum(axis=1)]: per row, the sum of its non-missing cells. *)
Definition sum_axis1 (d : DataFrame) : list (Snapshot * Q) :=
  map (fun tr => (fst tr, Qsum (map snd (snd tr)))) d.

End Frame.
Import Frame.

(** ** The aggregator: line 115 of the SCOPF script *)

(** [pd.concat(ds).groupby(level=0).max() if ds else ofp_dispatch.copy()] *)
Definition scopf_dispatch (scopf_dispatches : list DataFrame)
    (ofp_dispatch : DataFrame) : DataFrame :=
  match scopf_dispatches with
  | [] => ofp_dispatch
  | _ :: _ => groupby_level0_max (pd_concat scopf_dispatches)
  end.

(** The dispatch values the scenario frames hold for unit [u] in period [t]. *)
Definition observed (ds : list DataFrame) (t : Snapshot) (u : string) : list Q :=
  flat_map (fun d => cells d t u) ds.

(** ** The network description (the pypsa component tables the scripts use) *)

Record Bus := { bus_carrier : string }.

Record Generator := {
  gen_bus : string;
  p_nom : Q;
  marginal_cost : Q;
  gen_carrier : string }.

Record Load := { load_bus : string; p_set : Q }.

(** A row of [n.lines].  Every column is optional: a row created by
    assigning one cell of an absent label has all its other cells missing. *)
Record Line := {
  bus0 : option string;
  bus1 : option string;
  line_carrier : option string;
  x : option Q;
  r : option Q;
  s_nom : option Q }.

Record Network := {
  snapshots : list Snapshot;
  buses : list (string * Bus);
  generators : list (string * Generator);
  loads : list (string * Load);
  lines : list (string * Line);
  objective : option Q;
  generators_t_p : DataFrame }.

(** [pypsa.Network()].  (The default snapshot "now" of a new network is
    left out: both scripts replace it at once.) *)
Definition empty_network : Network :=
  {| snapshots := []; buses := []; generators := []; loads := [];
     lines := []; objective := None; generators_t_p := [] |}.

(** [name in table.index] *)
Definition in_index {A} (name : string) (table : list (string * A)) : bool :=
  existsb (fun row => String.eqb (fst row) name) table.

(** ** Python exceptions, the program state and the script monad *)

Inductive Exception :=
  | AssertionError (component name : string)
  | ValueError (msg : string)
  | IndexError
  | TypeError
  | FileNotFoundError (path : string)
  | SolverFault (msg : string).

(** What the script writes to standard output. [Stat label None] is a line
    whose value prints as [nan]. *)
Inductive Printed :=
  | Text (s : string)
  | Stat (label : string) (value : option Q).

Definition is_stat (line : Printed) : Prop :=
  match line with Text _ => False | Stat _ _ => True end.

Definition loc := nat.

Record World := {
  heap : gmap loc Network;
  next_loc : loc;
  files : gmap string Network;
  stdout : list Printed }.

Inductive Result (A : Type) :=
  | Ok (a : A) (w : World)
  | Raise (e : Exception) (w : World).
Arguments Ok {A} a w.
Arguments Raise {A} e w.

Definition Py (A : Type) : Type := World -> Result A.

Definition ret {A} (a : A) : Py A := fun w => Ok a w.

Definition bind {A B} (c : Py A) (k : A -> Py B) : Py B :=
  fun w => match c w with
           | Ok a w' => k a w'
           | Raise e w' => Raise e w'
           end.

Definition raise {A} (e : Exception) : Py A := fun w => Raise e w.

#[global] Instance py_ret : MRet Py := @ret.
#[global] Instance py_bind : MBind Py := fun A B k c => bind c k.

(** [for x in xs: acc = body(x, acc)] *)
Fixpoint for_each {A S} (xs : list A) (body : A -> S -> Py S) (acc : S) : Py S :=
  match xs with
  | [] => ret acc
  | x0 :: xs' => acc' ← body x0 acc; for_each xs' body acc'
  end.

Definition print (p : Printed) : Py unit :=
  fun w => Ok tt {| heap := heap w; next_loc := next_loc w;
                    files := files w; stdout := stdout w ++ [p] |}.

(** Allocation of a fresh network object. *)
Definition new_object (v : Network) : Py loc :=
  fun w => Ok (next_loc w)
              {| heap := <[next_loc w := v]> (heap w);
                 next_loc := S (next_loc w);
                 files := files w; stdout := stdout w |}.

(** Reading and updating the object behind a reference.  The script only
    dereferences names it has bound, so a dangling reference is not a Python
    error but a fault of the model; it is reported as [TypeError]. *)
Definition deref (l : loc) : Py Network :=
  fun w => match heap w !! l with
           | Some v => Ok v w
           | None => Raise TypeError w
           end.

Definition assign (l : loc) (v : Network) : Py unit :=
  fun w => Ok tt {| heap := <[l := v]> (heap w); next_loc := next_loc w;
                    files := files w; stdout := stdout w |}.

(** [n.export_to_netcdf(path)]: the file holds the description as it is at
    the call (later changes of the object do not reach the file). *)
Definition write_file (path : string) (v : Network) : Py unit :=
  fun w => Ok tt {| heap := heap w; next_loc := next_loc w;
                    files := <[path := v]> (files w); stdout := stdout w |}.

Definition export_to_netcdf (l : loc) (path : string) : Py unit :=
  v ← deref l; write_file path v.

(** [pypsa.Network(path)]: a new object read from the file. *)
Definition Network_from (path : string) : Py loc :=
  fun w => match files w !! path with
           | Some v => new_object v w
           | None => Raise (FileNotFoundError path) w
           end.

Definition update (l : loc) (f : Network -> Exception + Network) : Py unit :=
  v ← deref l;
  match f v with
  | inl e => raise e
  | inr v' => assign l v'
  end.

(** ** Operations on a network description *)

(** [d.reindex(s)]: one row per label of [s], taken from [d] where [d] has
    the label and blank otherwise. *)
Definition reindex (s : list Snapshot) (d : DataFrame) : DataFrame :=
  map (fun t => (t, default [] (snd <$> find (fun tr => Nat.eqb (fst tr) t) d))) s.

(** [n.set_snapshots(s)]: the new index, and the time-dependent tables
    reindexed to it. *)
Definition set_snapshots (s : list Snapshot) (n : Network) : Network :=
  {| snapshots := s; buses := buses n; generators := generators n;
     loads := loads n; lines := lines n; objective := objective n;
     generators_t_p := reindex s (generators_t_p n) |}.

Definition with_buses (b : list (string * Bus)) (n : Network) : Network :=
  {| snapshots := snapshots n; buses := b; generators := generators n;
     loads := loads n; lines := lines n; objective := objective n;
     generators_t_p := generators_t_p n |}.

Definition with_generators (g : list (string * Generator)) (n : Network) : Network :=
  {| snapshots := snapshots n; buses := buses n; generators := g;
     loads := loads n; lines := lines n; objective := objective n;
     generators_t_p := generators_t_p n |}.

Definition with_loads (l : list (string * Load)) (n : Network) : Network :=
  {| snapshots := snapshots n; buses := buses n; generators := generators n;
     loads := l; lines := lines n; objective := objective n;
     generators_t_p := generators_t_p n |}.

Definition with_lines (l : list (string * Line)) (n : Network) : Network :=
  {| snapshots := snapshots n; buses := buses n; generators := generators n;
     loads := loads n; lines := l; objective := objective n;
     generators_t_p := generators_t_p n |}.

Definition with_solution (obj : option Q) (p : DataFrame) (n : Network) : Network :=
  {| snapshots := snapshots n; buses := buses n; generators := generators n;
     loads := loads n; lines := lines n; objective := obj;
     generators_t_p := p |}.

(** [n.add(component, name, ...)]: a new row at the end of the component's
    table; pypsa refuses a name the table already has. *)
Definition add_row {A} (component name : string) (a : A)
    (table : list (string * A)) : Exception + list (string * A) :=
  if in_index name table then inl (AssertionError component name)
  else inr (table ++ [(name, a)]).

Definition add_Bus (name : string) (b : Bus) (n : Network) : Exception + Network :=
  match add_row "Bus" name b (buses n) with
  | inl e => inl e
  | inr t => inr (with_buses t n)
  end.

Definition add_Generator (name : string) (g : Generator) (n : Network)
    : Exception + Network :=
  match add_row "Generator" name g (generators n) with
  | inl e => inl e
  | inr t => inr (with_generators t n)
  end.

Definition add_Load (name : string) (l : Load) (n : Network) : Exception + Network :=
  match add_row "Load" name l (loads n) with
  | inl e => inl e
  | inr t => inr (with_loads t n)
  end.

Definition add_Line (name : string) (l : Line) (n : Network) : Exception + Network :=
  match add_row "Line" name l (lines n) with
  | inl e => inl e
  | inr t => inr (with_lines t n)
  end.

Definition with_s_nom (v : Q) (l : Line) : Line :=
  {| bus0 := bus0 l; bus1 := bus1 l; line_carrier := line_carrier l;
     x := x l; r := r l; s_nom := Some v |}.

Definition blank_line : Line :=
  {| bus0 := None; bus1 := None; line_carrier := None;
     x := None; r := None; s_nom := None |}.

(** [table.at[line, "s_nom"] = v].  pandas sets the cell of the rows
    labelled [line]; when no row has that label the assignment does not
    fail: the table is enlarged by a row whose other cells are missing. *)
Definition at_set_s_nom (line : string) (v : Q) (table : list (string * Line))
    : list (string * Line) :=
  if in_index line table
  then map (fun row => if String.eqb (fst row) line
                       then (fst row, with_s_nom v (snd row)) else row) table
  else table ++ [(line, with_s_nom v blank_line)].

(** [str(i)] for a natural number. *)
Definition str (i : nat) : string := NilZero.string_of_uint (Nat.to_uint i).

(** The load-shedding generator both loops add: lines 78 and 102. *)
Definition unserved_generator (bus : string) : Generator :=
  {| gen_bus := bus; p_nom := 10000; marginal_cost := 10000;
     gen_carrier := "unserved" |}.

(** [line_params], applied to the two end buses. *)
Definition line_params (b0 b1 : string) : Line :=
  {| bus0 := Some b0; bus1 := Some b1; line_carrier := Some "AC";
     x := Some 0.1%Q; r := Some 0.01%Q; s_nom := Some 100%Q |}.

(** Section 1 of the script: the 5-bus base network. *)
Definition create_base_network : Py loc :=
  n ← new_object empty_network;
  update n (fun v => inr (set_snapshots [0%nat] v));;
  for_each (seq 0 5)
    (fun i _ => update n (add_Bus ("Bus " +:+ str i) {| bus_carrier := "AC" |})) tt;;
  update n (add_Generator "G0" {| gen_bus := "Bus 0"; p_nom := 100;
     marginal_cost := 0; gen_carrier := "wind" |});;
  update n (add_Generator "G1" {| gen_bus := "Bus 1"; p_nom := 80;
     marginal_cost := 50; gen_carrier := "gas" |});;
  update n (add_Generator "G2" {| gen_bus := "Bus 2"; p_nom := 40;
     marginal_cost := 40; gen_carrier := "chp" |});;
  update n (add_Generator "G3" {| gen_bus := "Bus 3"; p_nom := 100;
     marginal_cost := 200; gen_carrier := "diesel" |});;
  update n (add_Load "Load1" {| load_bus := "Bus 1"; p_set := 50 |});;
  update n (add_Load "Load2" {| load_bus := "Bus 2"; p_set := 30 |});;
  update n (add_Load "Load3" {| load_bus := "Bus 3"; p_set := 40 |});;
  update n (add_Load "Load4" {| load_bus := "Bus 4"; p_set := 80 |});;
  update n (add_Line "Line_0_1" (line_params "Bus 0" "Bus 1"));;
  update n (add_Line "Line_1_2" (line_params "Bus 1" "Bus 2"));;
  update n (add_Line "Line_2_3" (line_params "Bus 2" "Bus 3"));;
  update n (add_Line "Line_3_0" (line_params "Bus 3" "Bus 0"));;
  update n (add_Line "Line_1_4" (line_params "Bus 1" "Bus 4"));;
  for_each (seq 0 5)
    (fun i _ => update n (add_Generator ("Unserved_" +:+ str i)
                            (unserved_generator ("Bus " +:+ str i)))) tt;;
  mret n.

Definition contingency_lines : list string :=
  ["Line_0_1"; "Line_1_4"; "Line_1_2"; "Line_2_3"; "Line_3_0"].

(** ** The solver boundary *)

(** What a call of [m.optimize(solver_name="glpk")] leaves behind: either it
    returns its status pair, with [m.objective] and [m.generators_t.p] as the
    library left them ([objective = None] when no solution was assigned), or
    the invocation itself fails and a Python exception leaves the call. *)
Inductive SolveOutcome :=
  | Returned (status : string * string) (obj : option Q) (p : DataFrame)
  | Failed (msg : string).

(** The globals of the script after its last line.  (The text column
    "type" that lines 120-121 add to the two frames for plotting is not kept
    in them; [bar_of] reads it off the frame it looks at.) *)
Record Globals := {
  ofp_dispatch : DataFrame;
  ofp_cost : option Q;
  scopf_dispatches : list DataFrame;
  scopf_costs : list Q;
  scopf_unserved : list Q;
  scopf_dispatch_plan : DataFrame;
  bars : list (string * string * option Q) }.

(** The three lists the contingency loop appends to. *)
Record Collected := {
  c_dispatches : list DataFrame;
  c_costs : list Q;
  c_unserved : list Q }.

(** The three [append]s of lines 109-112. *)
Definition push (cost : Q) (p : DataFrame) (u : Q) (acc : Collected) : Collected :=
  {| c_dispatches := c_dispatches acc ++ [p];
     c_costs := c_costs acc ++ [cost];
     c_unserved := c_unserved acc ++ [u] |}.

Definition nothing_collected : Collected :=
  {| c_dispatches := []; c_costs := []; c_unserved := [] |}.

(** [p.filter(like="Unserved").sum(axis=1).values[0]]: the shedding total of
    the first snapshot; [None] when the frame has no row (IndexError). *)
Definition unserved_sum (p : DataFrame) : option Q :=
  head (map snd (sum_axis1 (filter_like "Unserved" p))).

(** [np.mean(xs)]: [nan] on the empty list (numpy only warns).  The mean
    is taken in exact arithmetic; numpy's rounding of the sum and of the
    quotient to binary floating point is not modelled, and no statement
    below depends on the last digits of a mean. *)
Definition np_mean (xs : list Q) : option Q :=
  match xs with
  | [] => None
  | _ :: _ => Some (Qsum xs / inject_Z (Z.of_nat (length xs)))%Q
  end.

(** [np.max(xs)]: raises on the empty list. *)
Definition np_max (xs : list Q) : Exception + Q :=
  match max_of xs with
  | None => inl (ValueError
      "zero-size array to reduction operation maximum which has no identity")
  | Some m => inr m
  end.

(** [round(v, 2)] on a finite value: to the nearest hundredth, ties to the
    even one, of the exact value.  The script rounds a Python float at
    line 156 and numpy floats at lines 157-160; the two routines differ on
    values that binary floating point cannot represent, which an exact
    value does not show.  The statements below use [round2] only to say
    which number a line prints, and evaluate it only at whole numbers. *)
Definition round2 (v : Q) : Q :=
  let y := (v * 100)%Q in
  let f := Qfloor y in
  let d := (y - inject_Z f)%Q in
  let up := match (d ?= 1 # 2)%Q with
            | Lt => false
            | Gt => true
            | Eq => Z.odd f
            end in
  (inject_Z (if up then f + 1 else f) / 100)%Q.

Definition lift {A} (r : Exception + A) : Py A :=
  match r with
  | inl e => raise e
  | inr a => mret a
  end.

(** Section 5 of the script: the five summary lines. *)
Definition print_summary (cost0 : option Q) (costs unserved : list Q) : Py unit :=
  c ← lift (match cost0 with Some c => inr c | None => inl TypeError end);
  print (Stat "Base OPF cost:" (Some (round2 c)));;
  print (Stat "Average SCOPF contingency cost:" (round2 <$> np_mean costs));;
  mc ← lift (np_max costs);
  print (Stat "Worst-case SCOPF contingency cost:" (Some (round2 mc)));;
  print (Stat "Average unserved energy (MW) in SCOPF cases:"
           (round2 <$> np_mean unserved));;
  mu ← lift (np_max unserved);
  print (Stat "Max unserved energy (MW) in SCOPF cases:" (Some (round2 mu))).

(** Section 4 of the script, up to the drawing itself: the height of each
    bar is the first value of generator [gen] in the frame of [mode]
    ([.values[0]]); no such value is an IndexError, a missing cell is NaN. *)
Definition bar_of (ofp scopf : DataFrame) (gen mode : string)
    : Exception + (string * string * option Q) :=
  if negb (existsb (String.eqb gen) (df_columns (pd_concat [ofp; scopf])))
  then inl IndexError
  else match (if String.eqb mode "Base OPF" then ofp else scopf) with
       | [] => inl IndexError
       | (_, row) :: _ => inr (gen, mode, row_get gen row)
       end.

Definition plot_bars (ofp scopf : DataFrame)
    : Py (list (string * string * option Q)) :=
  for_each (list_prod ["G0"; "G1"; "G2"; "G3"] ["Base OPF"; "Strict SCOPF"])
    (fun gm acc => b ← lift (bar_of ofp scopf (fst gm) (snd gm));
                   mret (acc ++ [b])) [].

Section Script.

(** The external solve, and the file the script exchanges with itself. *)
Variable optimize : Network -> SolveOutcome.

Definition base_network_nc : string := "base_network.nc".

(** [m.optimize(solver_name="glpk")] on the object behind [l]. *)
Definition call_optimize (l : loc) : Py (string * string) :=
  v ← deref l;
  match optimize v with
  | Failed msg => raise (SolverFault msg)
  | Returned status obj p => assign l (with_solution obj p v);; mret status
  end.

(** Lines 100-102: the guard in front of each added shedding generator. *)
Definition ensure_unserved (m : loc) (bus : string) : Py unit :=
  v ← deref m;
  if negb (in_index ("Unserved_" +:+ bus) (generators v))
  then update m (add_Generator ("Unserved_" +:+ bus) (unserved_generator bus))
  else mret tt.

(** Lines 97-112: one pass of the contingency loop. *)
Definition contingency (line : string) (acc : Collected) : Py Collected :=
  m ← Network_from base_network_nc;
  update m (fun v => inr (with_lines (at_set_s_nom line 0 (lines v)) v));;
  v ← deref m;
  for_each (map fst (buses v)) (fun bus _ => ensure_unserved m bus) tt;;
  _ ← call_optimize m;
  v' ← deref m;
  match objective v' with
  | None => print (Text ("Infeasible for outage: " +:+ line));; mret acc
  | Some cost =>
      u ← lift (match unserved_sum (generators_t_p v') with
                | Some u => inr u
                | None => inl IndexError
                end);
      mret (push cost (generators_t_p v') u acc)
  end.

(** Sections 4 and 5 of the script: the plan, the bars and the summary. *)
Definition finish (v : Network) (acc : Collected) : Py Globals :=
  let plan := scopf_dispatch (c_dispatches acc) (generators_t_p v) in
  bs ← plot_bars (generators_t_p v) plan;
  print_summary (objective v) (c_costs acc) (c_unserved acc);;
  mret {| ofp_dispatch := generators_t_p v; ofp_cost := objective v;
          scopf_dispatches := c_dispatches acc; scopf_costs := c_costs acc;
          scopf_unserved := c_unserved acc; scopf_dispatch_plan := plan;
          bars := bs |}.

(** Sections 2 to 5 of the script, on the base network behind [n] and for
    the given candidate lines. *)
Definition analyse (n : loc) (candidates : list string) : Py Globals :=
  _ ← call_optimize n;
  v ← deref n;
  export_to_netcdf n base_network_nc;;
  acc ← for_each candidates contingency nothing_collected;
  finish v acc.

(** The whole script. *)
Definition main : Py Globals :=
  n ← create_base_network;
  analyse n contingency_lines.

End Script.

(** ** The contingency loop, read off as functions of the file content

    The theorems below relate the script to these: what one pass hands to
    the solver, and how the pass ends. *)

(** Lines 100-102 on a description: the guard and the added generator. *)
Definition ensure_unserved_in (bus : string) (v : Network) : Exception + Network :=
  if negb (in_index ("Unserved_" +:+ bus) (generators v))
  then add_Generator ("Unserved_" +:+ bus) (unserved_generator bus) v
  else inr v.

Fixpoint ensure_all (bs : list string) (v : Network) : Exception + Network :=
  match bs with
  | [] => inr v
  | bus :: bs' => match ensure_unserved_in bus v with
                  | inl e => inl e
                  | inr v' => ensure_all bs' v'
                  end
  end.

(** Lines 97-102: the description handed to the solver for an outage of
    [line], when the file holds [b]. *)
Definition scenario_network (b : Network) (line : string) : Exception + Network :=
  let v := with_lines (at_set_s_nom line 0 (lines b)) b in
  ensure_all (map fst (buses v)) v.

(** How one pass of the loop ends. *)
Inductive Verdict :=
  | Feasible (cost : Q) (p : DataFrame) (unserved : Q)
  | Infeasible
  | Fatal (e : Exception).

Definition verdict (optimize : Network -> SolveOutcome) (b : Network)
    (line : string) : Verdict :=
  match scenario_network b line with
  | inl e => Fatal e
  | inr m =>
      match optimize m with
      | Failed msg => Fatal (SolverFault msg)
      | Returned _ None _ => Infeasible
      | Returned _ (Some cost) p =>
          match unserved_sum p with
          | Some u => Feasible cost p u
          | None => Fatal IndexError
          end
      end
  end.

Definition is_infeasible (v : Verdict) : bool :=
  match v with Infeasible => true | _ => false end.

Definition is_fatal (v : Verdict) : bool :=
  match v with Fatal _ => true | _ => false end.

Definition infeasible_notice (line : string) : Printed :=
  Text ("Infeasible for outage: " +:+ line).

Definition verdicts (optimize : Network -> SolveOutcome) (b : Network)
    (candidates : list string) : list (string * Verdict) :=
  map (fun line => (line, verdict optimize b line)) candidates.

(** What the passes leave in the three lists, or the exception of the
    first pass that ends fatally. *)
Fixpoint collect (lvs : list (string * Verdict)) (acc : Collected)
    : Exception + Collected :=
  match lvs with
  | [] => inr acc
  | (_, Feasible c p u) :: rest => collect rest (push c p u acc)
  | (_, Infeasible) :: rest => collect rest acc
  | (_, Fatal e) :: _ => inl e
  end.

(** What the passes print, up to the first pass that ends fatally. *)
Fixpoint trace (lvs : list (string * Verdict)) : list Printed :=
  match lvs with
  | [] => []
  | (_, Feasible _ _ _) :: rest => trace rest
  | (line, Infeasible) :: rest => infeasible_notice line :: trace rest
  | (_, Fatal _) :: _ => []
  end.

(** The feasible passes, in candidate order. *)
Definition feasible_results (lvs : list (string * Verdict))
    : list (Q * DataFrame * Q) :=
  flat_map (fun lv => match snd lv with
                      | Feasible c p u => [(c, p, u)]
                      | _ => []
                      end) lvs.

(** The candidates whose pass ended infeasible, in candidate order. *)
Definition infeasible_candidates (lvs : list (string * Verdict)) : list string :=
  flat_map (fun lv => if is_infeasible (snd lv) then [fst lv] else []) lvs.

(** ** Worlds that differ in a stated way *)

Definition set_obj (l : loc) (v : Network) (w : World) : World :=
  {| heap := <[l := v]> (heap w); next_loc := next_loc w;
     files := files w; stdout := stdout w |}.

Definition add_out (out : list Printed) (w : World) : World :=
  {| heap := heap w; next_loc := next_loc w;
     files := files w; stdout := stdout w ++ out |}.

(** [w'] has every file of [w] and every object [w] had, unchanged; it may
    hold new objects. *)
Definition preserves (w w' : World) : Prop :=
  files w' = files w /\
  (next_loc w <= next_loc w')%nat /\
  forall l, (l < next_loc w)%nat -> heap w' !! l = heap w !! l.

(** [w'] differs from [w] at most in the object behind [m]. *)
Definition touches_only (m : loc) (w w' : World) : Prop :=
  files w' = files w /\ stdout w' = stdout w /\ next_loc w' = next_loc w /\
  forall l, l <> m -> heap w' !! l = heap w !! l.

Definition world_of {A} (r : Result A) : World :=
  match r with Ok _ w => w | Raise _ w => w end.

(** ** The linear programme behind one solve (one snapshot)

    The constraint set pypsa states for the linearised optimal power flow;
    it belongs to the library, and is written out here only to say what
    "admits a feasible dispatch" means. *)

Record OperatingPoint := {
  gen_p : list (string * Q);
  line_flow : list (string * Q);
  angle : list (string * Q) }.

Definition value_of (k : string) (kv : list (string * Q)) : Q :=
  default 0%Q (row_get k kv).

Definition Qabs_le (a b : Q) : bool := Qle_bool (- b) a && Qle_bool a b.

(** Generator bounds: [0 <= p <= p_nom]. *)
Definition generator_ok (pt : OperatingPoint) (ng : string * Generator) : bool :=
  Qle_bool 0 (value_of (fst ng) (gen_p pt)) &&
  Qle_bool (value_of (fst ng) (gen_p pt)) (p_nom (snd ng)).

(** Line rating and the flow/angle relation: [|f| <= s_nom], [x f = θ0 - θ1]. *)
Definition line_ok (pt : OperatingPoint) (nl : string * Line) : bool :=
  match s_nom (snd nl), x (snd nl), bus0 (snd nl), bus1 (snd nl) with
  | Some s, Some x, Some a, Some b =>
      Qabs_le (value_of (fst nl) (line_flow pt)) s &&
      Qeq_bool (x * value_of (fst nl) (line_flow pt))
               (value_of a (angle pt) - value_of b (angle pt))
  | _, _, _, _ => false
  end.

Definition injection (m : Network) (pt : OperatingPoint) (bus : string) : Q :=
  (Qsum (map (fun ng => value_of (fst ng) (gen_p pt))
           (filter (fun ng => String.eqb (gen_bus (snd ng)) bus) (generators m)))
   - Qsum (map (fun nl => p_set (snd nl))
           (filter (fun nl => String.eqb (load_bus (snd nl)) bus) (loads m))))%Q.

Definition outflow (m : Network) (pt : OperatingPoint) (bus : string) : Q :=
  (Qsum (map (fun nl => value_of (fst nl) (line_flow pt))
           (filter (fun nl => bool_decide (bus0 (snd nl) = Some bus)) (lines m)))
   - Qsum (map (fun nl => value_of (fst nl) (line_flow pt))
           (filter (fun nl => bool_decide (bus1 (snd nl) = Some bus)) (lines m))))%Q.

(** Nodal balance at every bus. *)
Definition bus_ok (m : Network) (pt : OperatingPoint) (nb : string * Bus) : bool :=
  Qeq_bool (injection m pt (fst nb)) (outflow m pt (fst nb)).

Definition feasibleb (m : Network) (pt : OperatingPoint) : bool :=
  forallb (generator_ok pt) (generators m) &&
  forallb (line_ok pt) (lines m) &&
  forallb (bus_ok m pt) (buses m).

(** Serve every load by the first shedding generator of its own bus, with
    no flow on any line. *)
Definition load_at (m : Network) (bus : string) : Q :=
  Qsum (map (fun nl => p_set (snd nl))
          (filter (fun nl => String.eqb (load_bus (snd nl)) bus) (loads m))).

Definition shedding_at (m : Network) (bus : string) : option string :=
  fst <$> find (fun ng => String.eqb (gen_bus (snd ng)) bus &&
                          String.eqb (gen_carrier (snd ng)) "unserved")
               (generators m).

Definition shed_locally (m : Network) : OperatingPoint :=
  {| gen_p := flat_map (fun nb => match shedding_at m (fst nb) with
                                  | Some g => [(g, load_at m (fst nb))]
                                  | None => []
                                  end) (buses m);
     line_flow := [];
     angle := [] |}.

(** A bus hosts a shedding generator of the script's size and price. *)
Definition hosts_shedding (m : Network) (bus : string) : bool :=
  existsb (fun ng => String.eqb (gen_bus (snd ng)) bus &&
                     Qeq_bool (p_nom (snd ng)) 10000 &&
                     Qeq_bool (marginal_cost (snd ng)) 10000 &&
                     String.eqb (gen_carrier (snd ng)) "unserved")
          (generators m).

(** ** Stand-ins for the solver, to run the script on concrete inputs *)

Definition cost_of (m : Network) (pt : OperatingPoint) : Q :=
  Qred (Qsum (map (fun ng => (marginal_cost (snd ng) * value_of (fst ng) (gen_p pt))%Q)
                (generators m))).

Definition frame_of (m : Network) (pt : OperatingPoint) : DataFrame :=
  map (fun t => (t, map (fun ng => (fst ng, value_of (fst ng) (gen_p pt)))
                      (generators m)))
      (snapshots m).

(** Sheds every load at its own bus; reports no solution when that point
    violates a constraint. *)
Definition shedding_solver (m : Network) : SolveOutcome :=
  let pt := shed_locally m in
  if feasibleb m pt
  then Returned ("ok", "optimal") (Some (cost_of m pt)) (frame_of m pt)
  else Returned ("warning", "infeasible") None (generators_t_p m).

Definition line_is_out (name : string) (m : Network) : bool :=
  existsb (fun nl => String.eqb (fst nl) name &&
                     match s_nom (snd nl) with
                     | Some s => Qeq_bool s 0
                     | None => false
                     end) (lines m).

(** As [shedding_solver], but finds no solution once the radial line to
    bus 4 is out, and breaks down once the line 2-3 is out. *)
Definition brittle_solver (m : Network) : SolveOutcome :=
  if line_is_out "Line_1_4" m
  then Returned ("warning", "infeasible") None (generators_t_p m)
  else if line_is_out "Line_2_3" m
  then Failed "glpsol: process terminated"
  else shedding_solver m.

(** As [shedding_solver], but finds no solution as soon as some line is
    out of service. *)
Definition any_line_out (m : Network) : bool :=
  existsb (fun nl => match s_nom (snd nl) with
                     | Some s => Qeq_bool s 0
                     | None => false
                     end) (lines m).

Definition outage_averse_solver (m : Network) : SolveOutcome :=
  if any_line_out m
  then Returned ("warning", "infeasible") None (generators_t_p m)
  else shedding_solver m.

(** The state a run of the script starts from, given the files on disk. *)
Definition process_start (fs : gmap string Network) : World :=
  {| heap := ∅; next_loc := 0; files := fs; stdout := [] |}.

(** The description section 1 of the script builds. *)
Definition base_network : Network :=
  Eval vm_compute in
    match create_base_network (process_start ∅) with
    | Ok l w => default empty_network (heap w !! l)
    | Raise _ _ => empty_network
    end.

(** Unserved energy as the specification words it: the sum, over all
    periods, of the dispatch of the shedding units. *)
Definition unserved_energy (p : DataFrame) : Q :=
  Qsum (map snd (sum_axis1 (filter_like "Unserved" p))).

(** ** The shared inputs of the stress-test script (case study 1)

    Lines 73-80: the seeded wind profile and its storm variant.  A pandas
    Series is an object; [copy] makes a new one, slice assignment and [*=]
    on a slice change the object in place. *)

Module StressInputs.

Definition Series := list Q.

Section Prelude.

(** numpy's global generator: its state, seeding, and a draw of [n]
    normal variates, which returns the values and the next state. *)
Variable RngState : Type.
Variable seed : nat -> RngState.
Variable normal : Q -> Q -> nat -> RngState -> list Q * RngState.

Record State := {
  series : gmap loc Series;
  fresh : loc;
  rng : RngState }.

Definition np_random_seed (s : nat) (st : State) : State :=
  {| series := series st; fresh := fresh st; rng := seed s |}.

Definition np_random_normal (mu sigma : Q) (n : nat) (st : State)
    : list Q * State :=
  let (xs, g) := normal mu sigma n (rng st) in
  (xs, {| series := series st; fresh := fresh st; rng := g |}).

(** [np.clip(xs, lo, hi)] *)
Definition np_clip (xs : list Q) (lo hi : Q) : list Q :=
  map (fun v => Qmin hi (Qmax lo v)) xs.

(** [pd.Series(xs, index=snapshots)] *)
Definition new_series (xs : list Q) (st : State) : loc * State :=
  (fresh st, {| series := <[fresh st := xs]> (series st);
                fresh := S (fresh st); rng := rng st |}).

(** [s.copy()] *)
Definition copy (l : loc) (st : State) : loc * State :=
  new_series (default [] (series st !! l)) st.

Definition in_slice (a b i : nat) : bool := Nat.leb a i && Nat.ltb i b.

(** [s[a:b] = v] *)
Definition set_slice (l : loc) (a b : nat) (v : Q) (st : State) : State :=
  {| series := alter (imap (fun i old => if in_slice a b i then v else old)) l
                 (series st);
     fresh := fresh st; rng := rng st |}.

(** [s[a:b] *= f] *)
Definition scale_slice (l : loc) (a b : nat) (f : Q) (st : State) : State :=
  {| series := alter (imap (fun i old => if in_slice a b i then (old * f)%Q
                                         else old)) l (series st);
     fresh := fresh st; rng := rng st |}.

(** Lines 73-80; returns the references [wind_profile] and [wind_storm]. *)
Definition wind_inputs (st : State) : loc * loc * State :=
  let st := np_random_seed 0 st in
  let (xs, st) := np_random_normal 0.6 0.2 168 st in
  let (wind_profile, st) := new_series (np_clip xs 0 1) st in
  let st := set_slice wind_profile 60 70 0.2 st in
  let (wind_storm, st) := copy wind_profile st in
  let st := scale_slice wind_storm 60 100 0.3 st in
  (wind_profile, wind_storm, st).

(** The values of [wind_profile] once line 75 has run. *)
Definition wind_values : Series :=
  imap (fun i old => if in_slice 60 70 i then 0.2%Q else old)
       (np_clip (fst (normal 0.6 0.2 168 (seed 0))) 0 1).

End Prelude.

Arguments series {RngState} _.
Arguments fresh {RngState} _.
Arguments rng {RngState} _.
Arguments wind_inputs {RngState} seed normal st.
Arguments wind_values {RngState} seed normal.

(** A stand-in generator: the state counts the draws made. *)
Definition counting_normal (mu sigma : Q) (n : nat) (g : nat) : list Q * nat :=
  (map (fun i => (mu + sigma * (inject_Z (Z.of_nat ((g + i) mod 7)) - 3))%Q)
       (seq 0 n), (g + n)%nat).

End StressInputs.

(** What a run shows to its caller: how it ended and what it printed. *)
Definition observe {A} (r : Result A) : (Exception + A) * list Printed :=
  match r with
  | Ok a w => (inr a, stdout w)
  | Raise e w => (inl e, stdout w)
  end.

(** ** Notions the further properties are stated with *)

(** Every value of a dispatch frame is non-negative. *)
Definition nonnegative (p : DataFrame) : Prop :=
  Forall (fun tr => Forall (fun cv => (0 <= snd cv)%Q) (snd tr)) p.

(** The exceptions a run of the script can end with. *)
Definition script_exception (e : Exception) : bool :=
  match e with
  | SolverFault _ | IndexError | TypeError | ValueError _ => true
  | AssertionError _ _ | FileNotFoundError _ => false
  end.

(** A solver that never finds a solution. *)
Definition idle_solver (m : Network) : SolveOutcome :=
  Returned ("warning", "infeasible") None (generators_t_p m).

(** [generators] of line 131: the units the plot shows. *)
Definition plotted : list string := ["G0"; "G1"; "G2"; "G3"].

(** ** Solves that assign no solution

    pypsa assigns objective and dispatch only when the solver reports the
    status "ok".  On every other return the object keeps what it held
    before the call: for a network read from "base_network.nc", which line
    86 writes after the base solve, that is the objective and the dispatch
    of the base case. *)
Definition left_as_loaded (st : string * string) (m : Network) : SolveOutcome :=
  Returned st (objective m) (generators_t_p m).

(** The economic dispatch of the base case, in merit order (G0, G2, G1),
    with its flows and angles. *)
Definition merit_order_point : OperatingPoint :=
  {| gen_p := [("G0", 100%Q); ("G1", 60%Q); ("G2", 40%Q)];
     line_flow := [("Line_0_1", 115 # 2); ("Line_1_2", -25 # 2);
                   ("Line_2_3", -5 # 2); ("Line_3_0", -85 # 2);
                   ("Line_1_4", 80%Q)];
     angle := [("Bus 0", 0%Q); ("Bus 1", -23 # 4); ("Bus 2", -9 # 2);
               ("Bus 3", -17 # 4); ("Bus 4", -55 # 4)] |}.

(** A solver that knows this one dispatch: it solves the networks in which
    the dispatch is feasible and reports every other network infeasible. *)
Definition merit_order_solver (m : Network) : SolveOutcome :=
  if feasibleb m merit_order_point
  then Returned ("ok", "optimal") (Some (cost_of m merit_order_point))
         (frame_of m merit_order_point)
  else left_as_loaded ("warning", "infeasible") m.

(** Merit order for the intact network, local shedding once a line is out. *)
Definition two_stage_solver (m : Network) : SolveOutcome :=
  if any_line_out m then shedding_solver m else merit_order_solver m.

(** As [two_stage_solver], but the outage of the radial line to bus 4 is
    reported infeasible. *)
Definition radial_solver (m : Network) : SolveOutcome :=
  if line_is_out "Line_1_4" m then left_as_loaded ("warning", "infeasible") m
  else two_stage_solver m.

(** As [radial_solver], and the solve of the outage of line 2-3 ends with
    the status ("warning", "unknown"). *)
Definition faulty_solver (m : Network) : SolveOutcome :=
  if line_is_out "Line_2_3" m then left_as_loaded ("warning", "unknown") m
  else radial_solver m.

(** ** The passes the loop records, read off the returns of the solver *)

(** A candidate is recorded when the solve of its network returns and the
    network then holds an objective; the entry is that objective and the
    dispatch the network then holds. *)
Definition recorded_pass (optimize : Network -> SolveOutcome) (b : Network)
    (line : string) : option (Q * DataFrame) :=
  match scenario_network b line with
  | inr m => match optimize m with
             | Returned _ (Some c) p => Some (c, p)
             | _ => None
             end
  | inl _ => None
  end.






(** * Properties *)

(** ** Frames *)

Section FrameFacts.

Local Open Scope Q_scope.

Lemma Qmax_cases (a b : Q) : Qmax a b = a \/ Qmax a b = b.
Proof.
  unfold Qmax, GenericMinMax.gmax. destruct (a ?= b); auto.
Qed.

Lemma fold_Qmax_spec (vs : list Q) : forall a,
  (fold_left Qmax vs a = a \/ In (fold_left Qmax vs a) vs) /\
  a <= fold_left Qmax vs a /\
  (forall v, In v vs -> v <= fold_left Qmax vs a).
Proof.
  induction vs as [|b vs IH]; intros a; simpl.
  - repeat split; [now left | apply Qle_refl | tauto].
  - destruct (IH (Qmax a b)) as (Hin & Hle & Hub). repeat split.
    + destruct Hin as [Heq | Hin]; [|now right; right].
      rewrite Heq. destruct (Qmax_cases a b) as [-> | ->]; auto.
    + eapply Qle_trans; [apply Q.le_max_l | exact Hle].
    + intros v [<- | Hv]; [|now apply Hub].
      eapply Qle_trans; [apply Q.le_max_r | exact Hle].
Qed.

(** [max_of] returns an element of the list that bounds every element. *)
Lemma max_of_spec (vs : list Q) (m : Q) :
  max_of vs = Some m -> In m vs /\ (forall v, In v vs -> v <= m).
Proof.
  destruct vs as [|a vs]; simpl; [discriminate|].
  intros [= <-]. destruct (fold_Qmax_spec vs a) as (Hin & Hle & Hub).
  split.
  - destruct Hin as [-> | Hin]; auto.
  - intros v [<- | Hv]; auto.
Qed.

Lemma max_of_is_Some (vs : list Q) : vs <> [] -> exists m, max_of vs = Some m.
Proof. destruct vs; [congruence | simpl; eauto]. Qed.

Lemma cells_app (d1 d2 : DataFrame) t u :
  cells (d1 ++ d2) t u = cells d1 t u ++ cells d2 t u.
Proof.
  induction d1 as [|[t' r0] d1 IH]; simpl; [reflexivity|].
  destruct (Nat.eqb t' t); [|exact IH].
  destruct (row_get u r0); simpl; now rewrite IH.
Qed.

Lemma cells_concat (ds : list DataFrame) t u :
  cells (pd_concat ds) t u = flat_map (fun d => cells d t u) ds.
Proof.
  unfold pd_concat. induction ds as [|d ds IH]; simpl; [reflexivity|].
  now rewrite cells_app, IH.
Qed.

Lemma row_get_Some_key u (r0 : Row) v : row_get u r0 = Some v -> In u (map fst r0).
Proof.
  induction r0 as [|[c w] r0 IH]; simpl; [discriminate|].
  destruct (String.eqb_spec c u); [now left | right; auto].
Qed.

Lemma cells_label (d : DataFrame) t u :
  cells d t u <> [] -> In t (map fst d).
Proof.
  induction d as [|[t' r0] d IH]; simpl; [congruence|].
  destruct (Nat.eqb_spec t' t); [now left | right; auto].
Qed.

Lemma cells_column (d : DataFrame) t u :
  cells d t u <> [] -> In u (flat_map (fun tr => map fst (snd tr)) d).
Proof.
  induction d as [|[t' r0] d IH]; simpl; [congruence|].
  intros H. apply in_or_app.
  destruct (Nat.eqb t' t); [|right; auto].
  destruct (row_get u r0) eqn:E; [left; eapply row_get_Some_key; eauto | right; auto].
Qed.

Lemma df_at_tabulate (f : Snapshot -> Row) (keys : list Snapshot) t u :
  In t keys -> df_at (map (fun k => (k, f k)) keys) t u = row_get u (f t).
Proof.
  induction keys as [|k keys IH]; simpl; [tauto|].
  intros H. destruct (Nat.eqb_spec k t) as [-> | Hne]; [reflexivity|].
  destruct H; [congruence | auto].
Qed.

Lemma row_get_tabulate (g : string -> option Q) (cols : list string) u :
  In u cols ->
  row_get u (flat_map (fun c => match g c with
                                | Some m => [(c, m)]
                                | None => []
                                end) cols) = g u.
Proof.
  induction cols as [|c cols IH]; simpl; [tauto|].
  intros H. destruct (String.eqb_spec c u) as [-> | Hne].
  - destruct (g u) eqn:E; simpl.
    + now rewrite String.eqb_refl.
    + clear H IH. induction cols as [|c cols IH]; simpl; [reflexivity|].
      destruct (g c) eqn:Ec; simpl; [|exact IH].
      destruct (String.eqb_spec c u); [congruence | exact IH].
  - destruct H as [? | H]; [congruence|].
    destruct (g c); simpl; [|auto].
    destruct (String.eqb_spec c u); [congruence | auto].
Qed.

(** A cell of the grouped maximum is the maximum of the group's cells. *)
Lemma groupby_level0_max_at (d : DataFrame) t u :
  cells d t u <> [] ->
  df_at (groupby_level0_max d) t u = max_of (cells d t u).
Proof.
  intros H. unfold groupby_level0_max.
  rewrite (df_at_tabulate
    (fun k => flat_map (fun c => match max_of (cells d k c) with
                                 | Some m => [(c, m)]
                                 | None => []
                                 end) (df_columns d))).
  - apply (row_get_tabulate (fun c => max_of (cells d t c))).
    unfold df_columns. apply list_elem_of_In, elem_of_remove_dups, list_elem_of_In.
    now apply (cells_column d t u).
  - unfold group_keys. apply list_elem_of_In.
    rewrite merge_sort_Permutation.
    apply elem_of_remove_dups, list_elem_of_In. now apply (cells_label d t u).
Qed.

Lemma row_get_tabulate_None (g : string -> option Q) (cols : list string) u :
  ~ In u cols ->
  row_get u (flat_map (fun c => match g c with
                                | Some m => [(c, m)]
                                | None => []
                                end) cols) = None.
Proof.
  induction cols as [|c cols IH]; simpl; [reflexivity|].
  intros H. destruct (g c); simpl; [|tauto].
  destruct (String.eqb_spec c u); [tauto | tauto].
Qed.

Lemma df_at_tabulate_None (f : Snapshot -> Row) (keys : list Snapshot) t u :
  ~ In t keys -> df_at (map (fun k => (k, f k)) keys) t u = None.
Proof.
  induction keys as [|k keys IH]; simpl; [reflexivity|].
  intros H. destruct (Nat.eqb_spec k t); tauto.
Qed.

(** The same, whether or not the group has a value in that column. *)
Lemma groupby_level0_max_cell (d : DataFrame) t u :
  df_at (groupby_level0_max d) t u = max_of (cells d t u).
Proof.
  destruct (cells d t u) as [|v vs] eqn:E.
  2: { rewrite <- E. apply groupby_level0_max_at. congruence. }
  simpl. unfold groupby_level0_max.
  destruct (in_dec Nat.eq_dec t (group_keys d)) as [Ht | Ht].
  - rewrite (df_at_tabulate
      (fun k => flat_map (fun c => match max_of (cells d k c) with
                                   | Some m => [(c, m)]
                                   | None => []
                                   end) (df_columns d))) by exact Ht.
    destruct (in_dec String.string_dec u (df_columns d)) as [Hu | Hu].
    + rewrite (row_get_tabulate (fun c => max_of (cells d t c))) by exact Hu.
      now rewrite E.
    + now apply (row_get_tabulate_None (fun c => max_of (cells d t c))).
  - now apply df_at_tabulate_None.
Qed.

End FrameFacts.

(** ** The aggregator *)

(** C1. Over a non-empty list of scenario frames, the cell of the
    conservative plan for unit [u] and period [t] is the maximum of the
    values the scenarios hold there: it is one of them and none exceeds it
    (and it is missing exactly when all of them are). *)
Theorem scopf_dispatch_is_maximum
    (ds : list DataFrame) (base : DataFrame) (t : Snapshot) (u : string) :
  ds <> [] ->
  match df_at (scopf_dispatch ds base) t u with
  | Some m => In m (observed ds t u) /\
              Forall (fun v => (v <= m)%Q) (observed ds t u)
  | None => observed ds t u = []
  end.
Proof.
  intros Hds.
  assert (Hcell : df_at (scopf_dispatch ds base) t u = max_of (observed ds t u)).
  { destruct ds as [|d ds]; [congruence|].
    unfold scopf_dispatch, observed.
    now rewrite groupby_level0_max_cell, cells_concat. }
  rewrite Hcell. destruct (max_of (observed ds t u)) as [m|] eqn:Hm.
  - destruct (max_of_spec _ _ Hm) as [Hin Hub].
    split; [exact Hin|]. apply List.Forall_forall. exact Hub.
  - destruct (observed ds t u); [reflexivity | discriminate].
Qed.

(** The scenario of the specification: "GasPlant" at 120 and at 80. *)
Lemma scopf_dispatch_GasPlant :
  df_at (scopf_dispatch [[(0%nat, [("GasPlant", 120%Q)])];
                         [(0%nat, [("GasPlant", 80%Q)])]] []) 0 "GasPlant"
  = Some 120%Q.
Proof.
  pose proof (scopf_dispatch_is_maximum
                [[(0%nat, [("GasPlant", 120%Q)])]; [(0%nat, [("GasPlant", 80%Q)])]]
                [] 0%nat "GasPlant") as H.
  destruct (df_at _ 0%nat "GasPlant") as [m|].
  - destruct H as [[<- | [<- | []]] Hub]; [discriminate | reflexivity |].
    apply List.Forall_inv in Hub. vm_compute in Hub. now destruct Hub.
  - specialize (H ltac:(discriminate)). discriminate.
Defined.

(** ** The script monad *)

Lemma bind_unfold {A B} (c : Py A) (k : A -> Py B) (w : World) :
  (c ≫= k) w = match c w with
               | Ok a w' => k a w'
               | Raise e w' => Raise e w'
               end.
Proof. reflexivity. Qed.

Lemma deref_ok (l : loc) (v : Network) (w : World) :
  heap w !! l = Some v -> deref l w = Ok v w.
Proof. unfold deref. now intros ->. Qed.

Lemma update_ok (l : loc) f (v v' : Network) (w : World) :
  heap w !! l = Some v -> f v = inr v' -> update l f w = Ok tt (set_obj l v' w).
Proof.
  intros Hl Hf. unfold update. rewrite bind_unfold, (deref_ok l v w Hl), Hf.
  reflexivity.
Qed.

Lemma update_err (l : loc) f (v : Network) e (w : World) :
  heap w !! l = Some v -> f v = inl e -> update l f w = Raise e w.
Proof.
  intros Hl Hf. unfold update. rewrite bind_unfold, (deref_ok l v w Hl), Hf.
  reflexivity.
Qed.

Lemma touches_only_refl (m : loc) (w : World) : touches_only m w w.
Proof. repeat split. Qed.

Lemma touches_only_set (m : loc) (v : Network) (w : World) :
  touches_only m w (set_obj m v w).
Proof.
  repeat split. intros l Hl. simpl. now apply lookup_insert_ne.
Qed.

Lemma touches_only_trans (m : loc) (w1 w2 w3 : World) :
  touches_only m w1 w2 -> touches_only m w2 w3 -> touches_only m w1 w3.
Proof.
  intros (F1 & O1 & N1 & H1) (F2 & O2 & N2 & H2).
  repeat split; try congruence.
  intros l Hl. rewrite H2, H1; auto.
Qed.

Lemma preserves_refl (w : World) : preserves w w.
Proof. repeat split; auto. Qed.

Lemma preserves_trans (w1 w2 w3 : World) :
  preserves w1 w2 -> preserves w2 w3 -> preserves w1 w3.
Proof.
  intros (F1 & N1 & H1) (F2 & N2 & H2). repeat split.
  - congruence.
  - lia.
  - intros l Hl. rewrite H2, H1; auto. lia.
Qed.

(** ** One pass of the contingency loop *)

Section ScriptFacts.

Variable optimize : Network -> SolveOutcome.

(** The guard loop of lines 100-102 computes [ensure_all] on the object. *)
Lemma ensure_loop (m : loc) (bs : list string) : forall (w : World) (v : Network),
  heap w !! m = Some v ->
  exists w', touches_only m w w' /\
    match ensure_all bs v with
    | inr v' => for_each bs (fun bus _ => ensure_unserved m bus) tt w = Ok tt w'
                /\ heap w' !! m = Some v'
    | inl e => for_each bs (fun bus _ => ensure_unserved m bus) tt w = Raise e w'
    end.
Proof.
  induction bs as [|bus bs IH]; intros w v Hv; simpl.
  - exists w. split; [apply touches_only_refl | now split].
  - unfold ensure_unserved_in.
    assert (Hstep : ensure_unserved m bus w =
      if negb (in_index ("Unserved_" +:+ bus) (generators v))
      then update m (add_Generator ("Unserved_" +:+ bus) (unserved_generator bus)) w
      else Ok tt w).
    { unfold ensure_unserved. rewrite bind_unfold, (deref_ok m v w Hv).
      now destruct (negb _). }
    destruct (negb (in_index ("Unserved_" +:+ bus) (generators v))).
    + destruct (add_Generator ("Unserved_" +:+ bus) (unserved_generator bus) v)
        as [e | v1] eqn:Eadd.
      * rewrite (update_err m _ v e w Hv Eadd) in Hstep.
        exists w. split; [apply touches_only_refl|].
        now rewrite bind_unfold, Hstep.
      * rewrite (update_ok m _ v v1 w Hv Eadd) in Hstep.
        destruct (IH (set_obj m v1 w) v1) as (w' & Ht & Hres).
        { simpl. apply lookup_insert_eq. }
        exists w'. split.
        { eapply touches_only_trans; [apply touches_only_set | exact Ht]. }
        destruct (ensure_all bs v1); now rewrite bind_unfold, Hstep.
    + destruct (IH w v Hv) as (w' & Ht & Hres).
      exists w'. split; [exact Ht|].
      destruct (ensure_all bs v); now rewrite bind_unfold, Hstep.
Qed.

(** The guard of line 101 is the very test [add] makes: the pass never
    fails while building its network. *)
Lemma ensure_all_total (bs : list string) : forall v : Network,
  exists v', ensure_all bs v = inr v' /\ lines v' = lines v /\
             buses v' = buses v /\ loads v' = loads v /\
             snapshots v' = snapshots v.
Proof.
  induction bs as [|bus bs IH]; intros v; simpl; [eauto 10|].
  unfold ensure_unserved_in, add_Generator, add_row.
  destruct (in_index ("Unserved_" +:+ bus) (generators v)); simpl.
  - apply IH.
  - destruct (IH (with_generators
                    (generators v ++ [("Unserved_" +:+ bus, unserved_generator bus)]) v))
      as (v' & -> & Hl & Hb & Hlo & Hs).
    exists v'. simpl in *. auto.
Qed.

Lemma scenario_network_total (b : Network) (line : string) :
  exists m, scenario_network b line = inr m /\
            lines m = at_set_s_nom line 0 (lines b) /\
            buses m = buses b /\ loads m = loads b /\ snapshots m = snapshots b.
Proof.
  unfold scenario_network.
  destruct (ensure_all_total
              (map fst (buses (with_lines (at_set_s_nom line 0 (lines b)) b)))
              (with_lines (at_set_s_nom line 0 (lines b)) b))
    as (m & -> & Hl & Hb & Hlo & Hs).
  exists m. simpl in *. auto.
Qed.

Lemma call_optimize_spec (l : loc) (v : Network) (w : World) :
  heap w !! l = Some v ->
  call_optimize optimize l w =
  match optimize v with
  | Failed msg => Raise (SolverFault msg) w
  | Returned st obj p => Ok st (set_obj l (with_solution obj p v) w)
  end.
Proof.
  intros Hl. unfold call_optimize. rewrite bind_unfold, (deref_ok l v w Hl).
  now destruct (optimize v).
Qed.

Lemma preserves_touch (m : loc) (w w2 w3 : World) :
  preserves w w2 -> (next_loc w <= m)%nat -> touches_only m w2 w3 ->
  preserves w w3.
Proof.
  intros (F & N & H) Hm (F' & _ & N' & H'). repeat split.
  - congruence.
  - lia.
  - intros l Hl. rewrite H', H; auto. lia.
Qed.

Lemma preserves_out (w w2 : World) (out : list Printed) :
  preserves w w2 -> preserves w (add_out out w2).
Proof. intros (F & N & H). repeat split; auto. Qed.

(** One pass ends as [verdict] says; it allocates one object and changes
    nothing that existed before. *)
Lemma contingency_spec (line : string) (acc : Collected) (w : World) (b : Network) :
  files w !! base_network_nc = Some b ->
  exists w', preserves w w' /\ next_loc w' = S (next_loc w) /\
    match verdict optimize b line with
    | Feasible c p u =>
        contingency optimize line acc w = Ok (push c p u acc) w' /\
        stdout w' = stdout w
    | Infeasible =>
        contingency optimize line acc w = Ok acc w' /\
        stdout w' = stdout w ++ [infeasible_notice line]
    | Fatal e =>
        contingency optimize line acc w = Raise e w' /\ stdout w' = stdout w
    end.
Proof.
  intros Hfile.
  set (m := next_loc w).
  set (w1 := {| heap := <[m := b]> (heap w); next_loc := S m;
                files := files w; stdout := stdout w |}).
  set (v0 := with_lines (at_set_s_nom line 0 (lines b)) b).
  assert (H1 : Network_from base_network_nc w = Ok m w1).
  { unfold Network_from. now rewrite Hfile. }
  assert (P1 : preserves w w1).
  { split; [reflexivity|]. split; [simpl; unfold m; lia|].
    intros l Hl. simpl. apply lookup_insert_ne. intros Heq.
    rewrite <- Heq in Hl. unfold m in Hl. lia. }
  assert (H2 : update m (fun v => inr (with_lines (at_set_s_nom line 0 (lines v)) v)) w1
               = Ok tt (set_obj m v0 w1)).
  { apply (update_ok m _ b); [apply lookup_insert_eq | reflexivity]. }
  assert (H3 : deref m (set_obj m v0 w1) = Ok v0 (set_obj m v0 w1)).
  { apply deref_ok. simpl. apply lookup_insert_eq. }
  destruct (ensure_loop m (map fst (buses v0)) (set_obj m v0 w1) v0)
    as (w3 & T3 & H4).
  { simpl. apply lookup_insert_eq. }
  assert (T13 : touches_only m w1 w3).
  { eapply touches_only_trans; [apply touches_only_set | exact T3]. }
  assert (P3 : preserves w w3).
  { apply (preserves_touch m w w1 w3 P1); [unfold m; lia | exact T13]. }
  assert (N3 : next_loc w3 = S (next_loc w)).
  { destruct T13 as (_ & _ & -> & _). reflexivity. }
  assert (O3 : stdout w3 = stdout w).
  { destruct T13 as (_ & -> & _). reflexivity. }
  assert (Hrun : contingency optimize line acc w =
    match for_each (map fst (buses v0)) (fun bus _ => ensure_unserved m bus) tt
            (set_obj m v0 w1) with
    | Ok _ w' =>
        (_ ← call_optimize optimize m;
         v' ← deref m;
         match objective v' with
         | None => print (Text ("Infeasible for outage: " +:+ line));; mret acc
         | Some cost =>
             u ← lift (match unserved_sum (generators_t_p v') with
                       | Some u => inr u
                       | None => inl IndexError
                       end);
             mret (push cost (generators_t_p v') u acc)
         end) w'
    | Raise e w' => Raise e w'
    end).
  { unfold contingency. rewrite bind_unfold, H1.
    rewrite bind_unfold, H2. rewrite bind_unfold, H3.
    now rewrite bind_unfold. }
  unfold verdict. change (scenario_network b line)
    with (ensure_all (map fst (buses v0)) v0).
  destruct (ensure_all (map fst (buses v0)) v0) as [e | sm].
  { exists w3. rewrite Hrun, H4. auto. }
  destruct H4 as [H4 Hsm]. rewrite H4 in Hrun.
  rewrite bind_unfold, (call_optimize_spec m sm w3 Hsm) in Hrun.
  destruct (optimize sm) as [st obj p | msg].
  2: { exists w3. rewrite Hrun. auto. }
  rewrite bind_unfold, (deref_ok m (with_solution obj p sm)) in Hrun
    by (simpl; apply lookup_insert_eq).
  cbn [objective generators_t_p with_solution] in Hrun.
  set (w4 := set_obj m (with_solution obj p sm) w3) in *.
  assert (P4 : preserves w w4).
  { apply (preserves_touch m w w3 w4 P3); [unfold m; lia | apply touches_only_set]. }
  destruct obj as [cost|].
  - destruct (unserved_sum p) as [u|]; exists w4; rewrite Hrun;
      (split; [exact P4|]; split; [exact N3|]; split; [reflexivity | exact O3]).
  - exists (add_out [infeasible_notice line] w4). rewrite Hrun.
    split; [now apply preserves_out|]. split; [exact N3|].
    split; [reflexivity|]. simpl. now rewrite O3.
Qed.

(** ** The whole loop *)

Lemma loop_spec (cs : list string) : forall (acc : Collected) (w : World) (b : Network),
  files w !! base_network_nc = Some b ->
  exists w', preserves w w' /\
    stdout w' = stdout w ++ trace (verdicts optimize b cs) /\
    for_each cs (contingency optimize) acc w =
    match collect (verdicts optimize b cs) acc with
    | inr acc' => Ok acc' w'
    | inl e => Raise e w'
    end.
Proof.
  induction cs as [|line cs IH]; intros acc w b Hfile; simpl.
  - exists w. split; [apply preserves_refl|]. split; [now rewrite app_nil_r | reflexivity].
  - destruct (contingency_spec line acc w b Hfile) as (w1 & P1 & _ & Hpass).
    assert (Hfile1 : files w1 !! base_network_nc = Some b).
    { destruct P1 as (-> & _). exact Hfile. }
    rewrite bind_unfold.
    destruct (verdict optimize b line) as [c p u | | e].
    + destruct Hpass as [-> O1].
      destruct (IH (push c p u acc) w1 b Hfile1) as (w' & P & O & Hrun).
      exists w'. split; [eapply preserves_trans; eauto|].
      split; [now rewrite O, O1 | exact Hrun].
    + destruct Hpass as [-> O1].
      destruct (IH acc w1 b Hfile1) as (w' & P & O & Hrun).
      exists w'. split; [eapply preserves_trans; eauto|].
      split; [|exact Hrun].
      rewrite O, O1, <- app_assoc. reflexivity.
    + destruct Hpass as [-> O1].
      exists w1. split; [exact P1|]. split; [now rewrite app_nil_r | reflexivity].
Qed.

Lemma analyse_failed (n : loc) (cs : list string) (w : World) (v0 : Network) msg :
  heap w !! n = Some v0 -> optimize v0 = Failed msg ->
  analyse optimize n cs w = Raise (SolverFault msg) w.
Proof.
  intros Hn Hopt. unfold analyse.
  now rewrite bind_unfold, (call_optimize_spec n v0 w Hn), Hopt.
Qed.

(** Sections 2 and 3 of the script, then [finish]. *)
Lemma analyse_spec (n : loc) (cs : list string) (w : World) (v0 : Network) st obj p :
  heap w !! n = Some v0 -> optimize v0 = Returned st obj p ->
  exists w',
    stdout w' = stdout w ++ trace (verdicts optimize (with_solution obj p v0) cs) /\
    analyse optimize n cs w =
    match collect (verdicts optimize (with_solution obj p v0) cs) nothing_collected with
    | inr acc => finish (with_solution obj p v0) acc w'
    | inl e => Raise e w'
    end.
Proof.
  intros Hn Hopt. set (b := with_solution obj p v0).
  set (w1 := set_obj n b w).
  set (w2 := {| heap := heap w1; next_loc := next_loc w1;
                files := <[base_network_nc := b]> (files w1);
                stdout := stdout w1 |}).
  assert (Hn1 : heap w1 !! n = Some b) by (simpl; apply lookup_insert_eq).
  destruct (loop_spec cs nothing_collected w2 b) as (w' & _ & O & Hrun).
  { simpl. apply lookup_insert_eq. }
  exists w'. split; [exact O|].
  unfold analyse.
  rewrite bind_unfold, (call_optimize_spec n v0 w Hn), Hopt.
  fold b. fold w1.
  rewrite bind_unfold, (deref_ok n b w1 Hn1).
  rewrite bind_unfold. unfold export_to_netcdf.
  rewrite bind_unfold, (deref_ok n b w1 Hn1).
  change (write_file base_network_nc b w1) with (Ok tt w2). cbv beta iota.
  rewrite bind_unfold, Hrun. fold b.
  now destruct (collect (verdicts optimize b cs) nothing_collected).
Qed.

End ScriptFacts.

(** ** What the loop collects and prints *)

Lemma collect_app (lvs : list (string * Verdict)) :
  forall acc acc', collect lvs acc = inr acc' ->
  c_costs acc' = c_costs acc ++ map (fun r => fst (fst r)) (feasible_results lvs) /\
  c_dispatches acc' = c_dispatches acc ++ map (fun r => snd (fst r)) (feasible_results lvs) /\
  c_unserved acc' = c_unserved acc ++ map snd (feasible_results lvs) /\
  trace lvs = map infeasible_notice (infeasible_candidates lvs).
Proof.
  induction lvs as [|[line [c p u | | e]] lvs IH]; intros acc acc'; simpl.
  - intros [= <-]. now rewrite !app_nil_r.
  - intros H. destruct (IH _ _ H) as (Hc & Hd & Hu & Ht). simpl in *.
    rewrite Hc, Hd, Hu, <- !app_assoc. auto.
  - intros H. destruct (IH _ _ H) as (Hc & Hd & Hu & Ht).
    rewrite Ht. auto.
  - discriminate.
Qed.

(** ** Sections 4 and 5: bars and summary *)

Lemma for_each_pure {A S} (body : A -> S -> Py S) (f : A -> S -> Exception + S) :
  (forall a s w, body a s w = lift (f a s) w) ->
  forall (xs : list A) (acc : S),
    exists r, forall w, for_each xs body acc w = lift r w.
Proof.
  intros Hbody xs. induction xs as [|a xs IH]; intros acc; simpl.
  - exists (inr acc). reflexivity.
  - destruct (f a acc) as [e | acc1] eqn:E.
    + exists (inl e). intros w. now rewrite bind_unfold, Hbody, E.
    + destruct (IH acc1) as [r Hr]. exists r. intros w.
      rewrite bind_unfold, Hbody, E. apply Hr.
Qed.

(** Drawing the bars reads no state and prints nothing. *)
Lemma plot_bars_pure (ofp scopf : DataFrame) :
  exists r, forall w, plot_bars ofp scopf w = lift r w.
Proof.
  unfold plot_bars.
  apply (for_each_pure _
    (fun gm acc => match bar_of ofp scopf (fst gm) (snd gm) with
                   | inl e => inl e
                   | inr b => inr (acc ++ [b])
                   end)).
  intros gm acc w. rewrite bind_unfold.
  now destruct (bar_of ofp scopf (fst gm) (snd gm)).
Qed.

(** The five summary lines, and where the summary stops. *)
Lemma print_summary_observe (cost0 : option Q) (costs unserved : list Q) (w : World) :
  observe (print_summary cost0 costs unserved w) =
  match cost0 with
  | None => (inl TypeError, stdout w)
  | Some c =>
      match np_max costs with
      | inl e =>
          (inl e, stdout w ++
             [Stat "Base OPF cost:" (Some (round2 c));
              Stat "Average SCOPF contingency cost:" (round2 <$> np_mean costs)])
      | inr mc =>
          match np_max unserved with
          | inl e =>
              (inl e, stdout w ++
                 [Stat "Base OPF cost:" (Some (round2 c));
                  Stat "Average SCOPF contingency cost:" (round2 <$> np_mean costs);
                  Stat "Worst-case SCOPF contingency cost:" (Some (round2 mc));
                  Stat "Average unserved energy (MW) in SCOPF cases:"
                    (round2 <$> np_mean unserved)])
          | inr mu =>
              (inr tt, stdout w ++
                 [Stat "Base OPF cost:" (Some (round2 c));
                  Stat "Average SCOPF contingency cost:" (round2 <$> np_mean costs);
                  Stat "Worst-case SCOPF contingency cost:" (Some (round2 mc));
                  Stat "Average unserved energy (MW) in SCOPF cases:"
                    (round2 <$> np_mean unserved);
                  Stat "Max unserved energy (MW) in SCOPF cases:" (Some (round2 mu))])
          end
      end
  end.
Proof.
  unfold print_summary. destruct cost0 as [c|]; [|reflexivity].
  destruct (np_max costs) as [e | mc]; [|destruct (np_max unserved) as [e | mu]];
    cbv beta iota delta
      [mbind mret py_bind py_ret bind ret raise print lift observe stdout];
    now rewrite <- !app_assoc.
Qed.

(** [finish], as seen by the caller. *)
Lemma finish_observe (v : Network) (acc : Collected) :
  exists r,
    (forall w, plot_bars (generators_t_p v)
                 (scopf_dispatch (c_dispatches acc) (generators_t_p v)) w = lift r w) /\
    forall w, observe (finish v acc w) =
      match r with
      | inl e => (inl e, stdout w)
      | inr bs =>
          match observe (print_summary (objective v) (c_costs acc) (c_unserved acc) w) with
          | (inl e, out) => (inl e, out)
          | (inr _, out) =>
              (inr {| ofp_dispatch := generators_t_p v; ofp_cost := objective v;
                      scopf_dispatches := c_dispatches acc;
                      scopf_costs := c_costs acc;
                      scopf_unserved := c_unserved acc;
                      scopf_dispatch_plan :=
                        scopf_dispatch (c_dispatches acc) (generators_t_p v);
                      bars := bs |}, out)
          end
      end.
Proof.
  destruct (plot_bars_pure (generators_t_p v)
              (scopf_dispatch (c_dispatches acc) (generators_t_p v))) as [r Hr].
  exists r. split; [exact Hr|]. intros w. unfold finish.
  rewrite bind_unfold, Hr. destruct r as [e | bs]; [reflexivity|].
  cbv beta iota delta [lift mret py_ret ret]. rewrite bind_unfold.
  now destruct (print_summary (objective v) (c_costs acc) (c_unserved acc) w).
Qed.

(** ** Runs from the start of the process *)

(** Section 1 of the script leaves one object, the base network. *)
Lemma create_base_network_start (fs : gmap string Network) :
  exists w0, create_base_network (process_start fs) = Ok 0%nat w0 /\
             heap w0 !! 0%nat = Some base_network /\
             next_loc w0 = 1%nat /\ files w0 = fs /\ stdout w0 = [].
Proof.
  eexists. split; [vm_compute; reflexivity|].
  split; [vm_compute; reflexivity|]. repeat split.
Qed.

Lemma main_start (optimize : Network -> SolveOutcome) (fs : gmap string Network) :
  exists w0, main optimize (process_start fs) = analyse optimize 0%nat contingency_lines w0 /\
             heap w0 !! 0%nat = Some base_network /\
             next_loc w0 = 1%nat /\ files w0 = fs /\ stdout w0 = [].
Proof.
  destruct (create_base_network_start fs) as (w0 & Hrun & Hrest).
  exists w0. split; [|exact Hrest].
  unfold main. now rewrite bind_unfold, Hrun.
Qed.

(** The outcome of sections 2-5 depends on the base description and on what
    was printed before, and on nothing else of the state. *)
Lemma analyse_same (optimize : Network -> SolveOutcome) (cs : list string)
    (n1 n2 : loc) (w1 w2 : World) (v0 : Network) :
  heap w1 !! n1 = Some v0 -> heap w2 !! n2 = Some v0 -> stdout w1 = stdout w2 ->
  observe (analyse optimize n1 cs w1) = observe (analyse optimize n2 cs w2).
Proof.
  intros H1 H2 Hout.
  destruct (optimize v0) as [st obj p | msg] eqn:Hopt.
  - destruct (analyse_spec optimize n1 cs w1 v0 st obj p H1 Hopt) as (w1' & O1 & ->).
    destruct (analyse_spec optimize n2 cs w2 v0 st obj p H2 Hopt) as (w2' & O2 & ->).
    assert (Hout' : stdout w1' = stdout w2') by now rewrite O1, O2, Hout.
    destruct (collect _ nothing_collected) as [e | acc]; simpl; [now rewrite Hout'|].
    destruct (finish_observe (with_solution obj p v0) acc) as (r & _ & Hfin).
    rewrite !Hfin. destruct r as [e | bs]; [now rewrite Hout'|].
    rewrite !print_summary_observe, Hout'. reflexivity.
  - rewrite (analyse_failed optimize n1 cs w1 v0 msg H1 Hopt).
    rewrite (analyse_failed optimize n2 cs w2 v0 msg H2 Hopt).
    simpl. now rewrite Hout.
Qed.

(** ** Scenario building and the base network *)

Lemma contingency_preserves (optimize : Network -> SolveOutcome)
    (line : string) (acc : Collected) (w : World) :
  preserves w (world_of (contingency optimize line acc w)).
Proof.
  destruct (files w !! base_network_nc) as [b|] eqn:Hfile.
  - destruct (contingency_spec optimize line acc w b Hfile) as (w' & P & _ & H).
    destruct (verdict optimize b line); destruct H as [-> _]; exact P.
  - unfold contingency, Network_from. rewrite bind_unfold, Hfile.
    apply preserves_refl.
Qed.

Lemma loop_preserves (optimize : Network -> SolveOutcome) (cs : list string) :
  forall (acc : Collected) (w : World),
  preserves w (world_of (for_each cs (contingency optimize) acc w)).
Proof.
  induction cs as [|line cs IH]; intros acc w; simpl.
  - apply preserves_refl.
  - rewrite bind_unfold.
    pose proof (contingency_preserves optimize line acc w) as P.
    destruct (contingency optimize line acc w) as [acc1 w1 | e w1]; simpl in *.
    + eapply preserves_trans; [exact P | apply IH].
    + exact P.
Qed.

Section WindInputs.

Import StressInputs.

Context {RngState : Type} (seed : nat -> RngState)
        (normal : Q -> Q -> nat -> RngState -> list Q * RngState).

(** After lines 73-80, [wind_profile] still holds the profile of line 75;
    the storm scaling went to the copy. *)
Lemma wind_inputs_spec (st : State RngState) :
  let '(wind_profile, wind_storm, st') := wind_inputs seed normal st in
  wind_profile <> wind_storm /\
  series st' !! wind_profile = Some (wind_values seed normal) /\
  series st' !! wind_storm =
    Some (imap (fun i old => if in_slice 60 100 i then (old * 0.3)%Q else old)
               (wind_values seed normal)) /\
  forall l, (l < fresh st)%nat -> series st' !! l = series st !! l.
Proof.
  unfold wind_inputs, wind_values, np_random_normal, np_random_seed. simpl.
  destruct (normal 0.6%Q 0.2%Q 168%nat (seed 0%nat)) as [xs g]. simpl.
  assert (Hne : fresh st <> S (fresh st)) by lia.
  split; [exact Hne|].
  rewrite lookup_alter_eq, lookup_insert_eq. simpl.
  split.
  - rewrite lookup_alter_ne, lookup_insert_ne by auto.
    now rewrite lookup_alter_eq, lookup_insert_eq.
  - split.
    + rewrite lookup_alter_eq, lookup_insert_eq. reflexivity.
    + intros l Hl.
      rewrite lookup_alter_ne, lookup_insert_ne by lia.
      now rewrite lookup_alter_ne, lookup_insert_ne by lia.
Qed.

(** Seeding makes the inputs independent of the generator's earlier state. *)
Lemma wind_inputs_seeded (st1 st2 : State RngState) :
  series st1 = series st2 -> fresh st1 = fresh st2 ->
  wind_inputs seed normal st1 = wind_inputs seed normal st2.
Proof.
  intros Hs Hf. unfold wind_inputs, np_random_normal, np_random_seed. simpl.
  destruct (normal 0.6%Q 0.2%Q 168%nat (seed 0%nat)) as [xs g]. simpl.
  now rewrite Hs, Hf.
Qed.

End WindInputs.

(** C5. Building and solving scenarios changes neither the base network
    nor the file it is read from, nor any object that existed before: each
    pass works on an object of its own.  Likewise the storm profile of the
    stress-test script is built on a copy, and the wind profile keeps its
    values. *)
Theorem scenarios_leave_base_unchanged :
  (forall (optimize : Network -> SolveOutcome) (cs : list string)
          (acc : Collected) (w : World),
     preserves w (world_of (for_each cs (contingency optimize) acc w))) /\
  (forall (RngState : Type) (seed : nat -> RngState)
          (normal : Q -> Q -> nat -> RngState -> list Q * RngState)
          (st : StressInputs.State RngState),
     let '(wind_profile, wind_storm, st') :=
       StressInputs.wind_inputs seed normal st in
     wind_profile <> wind_storm /\
     StressInputs.series st' !! wind_profile =
       Some (StressInputs.wind_values seed normal) /\
     forall l, (l < StressInputs.fresh st)%nat ->
       StressInputs.series st' !! l = StressInputs.series st !! l).
Proof.
  split.
  - intros. apply loop_preserves.
  - intros RngState seed normal st.
    pose proof (wind_inputs_spec seed normal st) as H.
    destruct (StressInputs.wind_inputs seed normal st) as [[wp ws] st'].
    tauto.
Qed.

(** C9. Two runs on the same inputs end alike and print the same lines:
    the outcome of the script does not depend on the files an earlier run
    left behind (the base file is rewritten before it is read), and the
    seeded wind profile does not depend on the generator's earlier state. *)
Theorem rerun_is_identical :
  (forall (optimize : Network -> SolveOutcome) (fs1 fs2 : gmap string Network),
     observe (main optimize (process_start fs1)) =
     observe (main optimize (process_start fs2))) /\
  (forall (optimize : Network -> SolveOutcome) (base : Network)
          (cs : list string) (fs1 fs2 : gmap string Network),
     observe ((new_object base ≫= fun n => analyse optimize n cs) (process_start fs1)) =
     observe ((new_object base ≫= fun n => analyse optimize n cs) (process_start fs2))) /\
  (forall (RngState : Type) (seed : nat -> RngState)
          (normal : Q -> Q -> nat -> RngState -> list Q * RngState)
          (st : StressInputs.State RngState) (g : RngState),
     StressInputs.wind_inputs seed normal st =
     StressInputs.wind_inputs seed normal
       {| StressInputs.series := StressInputs.series st;
          StressInputs.fresh := StressInputs.fresh st;
          StressInputs.rng := g |}).
Proof.
  split; [|split].
  - intros optimize fs1 fs2.
    destruct (main_start optimize fs1) as (w1 & -> & H1 & _ & _ & O1).
    destruct (main_start optimize fs2) as (w2 & -> & H2 & _ & _ & O2).
    apply (analyse_same optimize _ _ _ _ _ base_network);
      [exact H1 | exact H2 | now rewrite O1, O2].
  - intros optimize base cs fs1 fs2. rewrite !bind_unfold.
    apply (analyse_same optimize _ _ _ _ _ base); simpl;
      try apply lookup_insert_eq; reflexivity.
  - intros RngState seed normal st g. now apply wind_inputs_seeded.
Qed.

(** ** Runs that reach the end *)

Lemma observe_inr {A} (r : Result A) (a : A) (out : list Printed) :
  observe r = (inr a, out) -> exists w', r = Ok a w' /\ stdout w' = out.
Proof. destruct r; simpl; intros [= <- <-]; eauto. Qed.

Lemma observe_inl {A} (r : Result A) (e : Exception) (out : list Printed) :
  observe r = (inl e, out) -> exists w', r = Raise e w' /\ stdout w' = out.
Proof. destruct r; simpl; intros [= <- <-]; eauto. Qed.


(** ** Candidates the base network does not have *)

(** C6, what the code does not do: a candidate that names no line of the
    base network passes the build; the pass hands the solver a network with
    one more line. *)
Lemma unknown_line_is_built :
  in_index "Line_9_9" (lines base_network) = false /\
  exists m, scenario_network base_network "Line_9_9" = inr m /\
            lines m = lines base_network ++ [("Line_9_9", with_s_nom 0 blank_line)].
Proof.
  split; [vm_compute; reflexivity|].
  eexists. split; vm_compute; reflexivity.
Qed.

(** C6, as amended. The build of a scenario never fails.  For a line the
    table has, the capacity of the rows of that name becomes 0 and the other
    rows stay; for a name the table lacks, a row of that name is appended,
    with capacity 0 and nothing else.  A pass can only end fatally inside
    the solve or on reading its dispatch. *)
Theorem scenario_build_never_fails
    (optimize : Network -> SolveOutcome) (b : Network) (line : string) :
  (exists m, scenario_network b line = inr m /\
     buses m = buses b /\ loads m = loads b /\
     lines m =
       if in_index line (lines b)
       then map (fun row => if String.eqb (fst row) line
                            then (fst row, with_s_nom 0 (snd row)) else row) (lines b)
       else lines b ++ [(line, with_s_nom 0 blank_line)]) /\
  match verdict optimize b line with
  | Fatal e => (exists msg, e = SolverFault msg) \/ e = IndexError
  | _ => True
  end.
Proof.
  destruct (scenario_network_total b line) as (m & Hm & Hl & Hb & Hlo & _).
  split.
  - exists m. repeat split; auto.
  - unfold verdict. rewrite Hm.
    destruct (optimize m) as [st [c|] p | msg]; eauto.
    destruct (unserved_sum p); auto.
Qed.

(** ** Shedding generators and feasibility *)

Lemma trace_without_infeasible (lvs : list (string * Verdict)) :
  forallb (fun lv => negb (is_infeasible (snd lv))) lvs = true -> trace lvs = [].
Proof.
  induction lvs as [|[l [c p u | | e]] lvs IH]; simpl; auto. discriminate.
Qed.

Lemma finish_prints_stats (v : Network) (acc : Collected) (w : World) :
  exists out, snd (observe (finish v acc w)) = stdout w ++ out /\ Forall is_stat out.
Proof.
  destruct (finish_observe v acc) as (r & _ & Hfin). rewrite Hfin.
  destruct r as [e | bs].
  { exists []. simpl. now rewrite app_nil_r. }
  rewrite print_summary_observe.
  destruct (objective v) as [c|].
  2: { exists []. simpl. now rewrite app_nil_r. }
  destruct (np_max (c_costs acc)); [|destruct (np_max (c_unserved acc))];
    simpl; eexists; (split; [reflexivity|]); repeat constructor.
Qed.

(** What every pass of the script hands to the solver. *)
Lemma outage_network (line : string) (obj : option Q) (p : DataFrame) :
  In line contingency_lines ->
  exists m,
    scenario_network (with_solution obj p base_network) line = inr m /\
    generators m =
      generators base_network ++
      map (fun nb => ("Unserved_" +:+ fst nb, unserved_generator (fst nb)))
          (buses base_network) /\
    forallb (fun nb => hosts_shedding m (fst nb)) (buses m) = true /\
    feasibleb m (shed_locally m) = true.
Proof.
  intros Hin. simpl in Hin.
  repeat (destruct Hin as [<- | Hin];
          [eexists; split; [vm_compute; reflexivity|];
           split; [vm_compute; reflexivity|];
           split; vm_compute; reflexivity |]).
  destruct Hin.
Qed.


(** C10. Each scenario network of the script has, at every bus, a
    load-shedding generator of 10^4 MW at cost 10000: those of the base
    network and, since the name tested in line 101 never occurs, one more
    per bus.  Serving every load by the shedding generator of its own bus
    is then a feasible dispatch for every outage, so that a solver which
    answers whenever such a dispatch exists never takes the script into the
    infeasibility branch: no notice is printed. *)
Theorem outages_stay_feasible
    (optimize : Network -> SolveOutcome) (fs : gmap string Network) :
  (forall m, feasibleb m (shed_locally m) = true ->
             exists st c p, optimize m = Returned st (Some c) p) ->
  existsb (fun nb => in_index ("Unserved_" +:+ fst nb) (generators base_network))
          (buses base_network) = false /\
  Forall (fun line => forall obj p, exists m,
            scenario_network (with_solution obj p base_network) line = inr m /\
            generators m =
              generators base_network ++
              map (fun nb => ("Unserved_" +:+ fst nb, unserved_generator (fst nb)))
                  (buses base_network) /\
            forallb (fun nb => hosts_shedding m (fst nb)) (buses m) = true /\
            feasibleb m (shed_locally m) = true /\
            is_infeasible (verdict optimize (with_solution obj p base_network) line)
              = false)
         contingency_lines /\
  Forall is_stat (snd (observe (main optimize (process_start fs)))).
Proof.
  intros Hcomplete.
  assert (Hlines : Forall (fun line => forall obj p, exists m,
            scenario_network (with_solution obj p base_network) line = inr m /\
            generators m =
              generators base_network ++
              map (fun nb => ("Unserved_" +:+ fst nb, unserved_generator (fst nb)))
                  (buses base_network) /\
            forallb (fun nb => hosts_shedding m (fst nb)) (buses m) = true /\
            feasibleb m (shed_locally m) = true /\
            is_infeasible (verdict optimize (with_solution obj p base_network) line)
              = false) contingency_lines).
  { apply List.Forall_forall. intros line Hin obj p.
    destruct (outage_network line obj p Hin) as (m & Hm & Hg & Hh & Hf).
    exists m. repeat (split; [assumption|]).
    unfold verdict. rewrite Hm.
    destruct (Hcomplete m Hf) as (st & c & p' & ->).
    now destruct (unserved_sum p'). }
  split; [vm_compute; reflexivity|]. split; [exact Hlines|].
  destruct (main_start optimize fs) as (w0 & -> & H0 & _ & _ & O0).
  destruct (Hcomplete base_network) as (st & c & p & Hopt); [vm_compute; reflexivity|].
  destruct (analyse_spec optimize 0%nat contingency_lines w0 base_network st (Some c) p
              H0 Hopt) as (w1 & O1 & ->).
  rewrite trace_without_infeasible, O0 in O1.
  2: { apply forallb_forall. intros [l v] Hin. unfold verdicts in Hin.
       apply in_map_iff in Hin as (l' & [= <- <-] & Hin). simpl.
       rewrite List.Forall_forall in Hlines.
       destruct (Hlines l' Hin (Some c) p) as (m & _ & _ & _ & _ & ->). reflexivity. }
  destruct (collect _ nothing_collected) as [e | acc].
  - simpl. rewrite O1. constructor.
  - destruct (finish_prints_stats (with_solution (Some c) p base_network) acc w1)
      as (out & -> & Hout).
    now rewrite O1.
Qed.

(** ** The statements at work on concrete runs *)

Lemma outages_stay_feasible_witness :
  Forall is_stat (snd (observe (main shedding_solver (process_start ∅)))).
Proof.
  apply (outages_stay_feasible shedding_solver ∅).
  intros m H. unfold shedding_solver. rewrite H. eauto.
Defined.

(** * Further properties of the code *)

(** ** More on the aggregator *)

Lemma scopf_dispatch_cell (ds : list DataFrame) (base : DataFrame) t u :
  ds <> [] -> df_at (scopf_dispatch ds base) t u = max_of (observed ds t u).
Proof.
  destruct ds as [|d ds]; [congruence|]. intros _.
  unfold scopf_dispatch, observed.
  now rewrite groupby_level0_max_cell, cells_concat.
Qed.

Lemma max_of_None (vs : list Q) : max_of vs = None -> vs = [].
Proof. now destruct vs. Qed.

Lemma max_of_Permutation (l l' : list Q) :
  l ≡ₚ l' -> option_Forall2 Qeq (max_of l) (max_of l').
Proof.
  intros Hp.
  destruct (max_of l) as [m|] eqn:Hm, (max_of l') as [m'|] eqn:Hm'.
  - constructor.
    destruct (max_of_spec _ _ Hm) as [Hin Hub].
    destruct (max_of_spec _ _ Hm') as [Hin' Hub'].
    apply Qle_antisym.
    + apply Hub'. eapply Permutation_in; eauto.
    + apply Hub. eapply Permutation_in; [symmetry|]; eauto.
  - apply max_of_None in Hm'. subst l'. apply Permutation_nil_r in Hp.
    subst l. discriminate.
  - apply max_of_None in Hm. subst l. apply Permutation_nil in Hp.
    subst l'. discriminate.
  - constructor.
Qed.

(** X1. The conservative plan does not depend on the order in which the
    scenario frames were appended: for a permutation of the list, every
    cell of the plan has the same value (and is missing in both or in
    neither). *)
Theorem scopf_dispatch_order_irrelevant
    (ds ds' : list DataFrame) (base : DataFrame) (t : Snapshot) (u : string) :
  ds ≡ₚ ds' ->
  option_Forall2 Qeq (df_at (scopf_dispatch ds base) t u)
                     (df_at (scopf_dispatch ds' base) t u).
Proof.
  intros Hp. destruct ds as [|d ds].
  - apply Permutation_nil in Hp. subst ds'. simpl.
    destruct (df_at base t u); constructor. reflexivity.
  - assert (Hne : ds' <> []).
    { intros ->. apply Permutation_nil_r in Hp. discriminate. }
    rewrite !scopf_dispatch_cell by (auto; discriminate).
    apply max_of_Permutation. unfold observed.
    now apply Permutation_flat_map.
Qed.

Lemma scopf_dispatch_order_irrelevant_witness :
  option_Forall2 Qeq
    (df_at (scopf_dispatch [[(0%nat, [("G1", 30%Q)])]; [(0%nat, [("G1", 55%Q)])]] [])
           0%nat "G1")
    (df_at (scopf_dispatch [[(0%nat, [("G1", 55%Q)])]; [(0%nat, [("G1", 30%Q)])]] [])
           0%nat "G1").
Proof.
  apply (scopf_dispatch_order_irrelevant
           [[(0%nat, [("G1", 30%Q)])]; [(0%nat, [("G1", 55%Q)])]]
           [[(0%nat, [("G1", 55%Q)])]; [(0%nat, [("G1", 30%Q)])]] [] 0%nat "G1").
  apply perm_swap.
Defined.

Lemma cells_unlabelled (d : DataFrame) t u :
  ~ In t (map fst d) -> cells d t u = [].
Proof.
  intros H. destruct (cells d t u) eqn:E; [reflexivity|].
  exfalso. apply H. apply (cells_label d t u). congruence.
Qed.

Lemma cells_unique_label (d : DataFrame) t u :
  NoDup (map fst d) -> max_of (cells d t u) = df_at d t u.
Proof.
  induction d as [|[t' r0] d IH]; simpl; [reflexivity|].
  intros Hnd. apply NoDup_cons in Hnd as [Hnotin Hnd].
  destruct (Nat.eqb_spec t' t) as [-> | Hne]; [|auto].
  rewrite cells_unlabelled by (now rewrite <- list_elem_of_In).
  now destruct (row_get u r0).
Qed.

(** X2. With one feasible scenario whose frame has no repeated snapshot
    label, every cell of the plan is that scenario's cell. *)
Theorem scopf_dispatch_single
    (d base : DataFrame) (t : Snapshot) (u : string) :
  NoDup (map fst d) ->
  df_at (scopf_dispatch [d] base) t u = df_at d t u.
Proof.
  intros Hnd. rewrite scopf_dispatch_cell by discriminate.
  unfold observed. simpl. rewrite app_nil_r. now apply cells_unique_label.
Qed.

Lemma scopf_dispatch_single_witness :
  df_at (scopf_dispatch [[(0%nat, [("G1", 30%Q)]); (1%nat, [("G1", 45%Q)])]] [])
        1%nat "G1" = Some 45%Q.
Proof.
  etransitivity.
  - apply (scopf_dispatch_single
             [(0%nat, [("G1", 30%Q)]); (1%nat, [("G1", 45%Q)])] [] 1%nat "G1").
    apply (bool_decide_unpack _). vm_compute. exact I.
  - reflexivity.
Defined.

(** X3. Over a non-empty list of scenario frames the index of the plan is
    sorted, has no repeated label, and holds exactly the labels that occur
    in some scenario frame. *)
Theorem scopf_dispatch_index
    (ds : list DataFrame) (base : DataFrame) :
  ds <> [] ->
  Sorted Nat.le (map fst (scopf_dispatch ds base)) /\
  NoDup (map fst (scopf_dispatch ds base)) /\
  forall t, In t (map fst (scopf_dispatch ds base)) <->
            exists d, In d ds /\ In t (map fst d).
Proof.
  intros Hne.
  assert (Hidx : map fst (scopf_dispatch ds base) = group_keys (pd_concat ds)).
  { destruct ds as [|d0 ds]; [congruence|].
    unfold scopf_dispatch, groupby_level0_max. rewrite map_map. apply map_id. }
  rewrite Hidx. unfold group_keys.
  split; [apply Sorted_merge_sort; apply _|].
  split.
  - rewrite merge_sort_Permutation. apply NoDup_remove_dups.
  - intros t. rewrite <- list_elem_of_In, merge_sort_Permutation,
      elem_of_remove_dups, list_elem_of_In.
    unfold pd_concat. rewrite concat_map, in_concat. split.
    + intros (l & Hl & Ht). apply in_map_iff in Hl as (d & <- & Hd). eauto.
    + intros (d & Hd & Ht). exists (map fst d). split; [now apply in_map | exact Ht].
Qed.

Lemma scopf_dispatch_index_witness :
  map fst (scopf_dispatch [[(2%nat, [("G1", 30%Q)])];
                           [(0%nat, [("G1", 45%Q)]); (2%nat, [("G1", 5%Q)])]] [])
  = [0%nat; 2%nat] /\
  Sorted Nat.le (map fst (scopf_dispatch [[(2%nat, [("G1", 30%Q)])];
                           [(0%nat, [("G1", 45%Q)]); (2%nat, [("G1", 5%Q)])]] [])).
Proof.
  split; [vm_compute; reflexivity|].
  apply (scopf_dispatch_index [[(2%nat, [("G1", 30%Q)])];
                               [(0%nat, [("G1", 45%Q)]); (2%nat, [("G1", 5%Q)])]] []).
  discriminate.
Defined.

Lemma cells_of_unique (d : DataFrame) t u :
  NoDup (map fst d) -> cells d t u = option_list (df_at d t u).
Proof.
  induction d as [|[t' r0] d IH]; simpl; [reflexivity|].
  intros Hnd. apply NoDup_cons in Hnd as [Hnotin Hnd].
  destruct (Nat.eqb_spec t' t) as [-> | Hne]; [|auto].
  rewrite cells_unlabelled by (now rewrite <- list_elem_of_In).
  now destruct (row_get u r0).
Qed.

Lemma groupby_index_NoDup (d : DataFrame) : NoDup (map fst (groupby_level0_max d)).
Proof.
  unfold groupby_level0_max. rewrite map_map. simpl. rewrite map_id.
  unfold group_keys. rewrite merge_sort_Permutation. apply NoDup_remove_dups.
Qed.

Lemma max_of_char (l : list Q) (m : Q) :
  In m l -> (forall v, In v l -> (v <= m)%Q) ->
  option_Forall2 Qeq (max_of l) (Some m).
Proof.
  intros Hin Hub. destruct (max_of l) as [m'|] eqn:E.
  - constructor. destruct (max_of_spec _ _ E) as [Hin' Hub'].
    apply Qle_antisym; auto.
  - apply max_of_None in E. subst l. destruct Hin.
Qed.

Lemma max_of_stages (l1 l2 : list Q) :
  option_Forall2 Qeq (max_of (l1 ++ l2))
    (max_of (option_list (max_of l1) ++ option_list (max_of l2))).
Proof.
  destruct (max_of l1) as [m1|] eqn:E1, (max_of l2) as [m2|] eqn:E2;
    try (apply max_of_None in E1; subst l1);
    try (apply max_of_None in E2; subst l2);
    try (destruct (max_of_spec _ _ E1) as [Hin1 Hub1]);
    try (destruct (max_of_spec _ _ E2) as [Hin2 Hub2]); simpl.
  - change (fold_left Qmax [] (Qmax m1 m2)) with (Qmax m1 m2).
    apply max_of_char.
    + apply in_or_app. destruct (Qmax_cases m1 m2) as [-> | ->]; auto.
    + intros v Hv. apply in_app_or in Hv as [Hv | Hv].
      * eapply Qle_trans; [now apply Hub1 | apply Q.le_max_l].
      * eapply Qle_trans; [now apply Hub2 | apply Q.le_max_r].
  - rewrite app_nil_r, E1. constructor. reflexivity.
  - rewrite E2. constructor. reflexivity.
  - constructor.
Qed.

(** X4. Aggregating two non-empty batches of scenarios separately and then
    the two partial plans gives, cell by cell, the plan of all scenarios
    together. *)
Theorem scopf_dispatch_in_stages
    (ds1 ds2 : list DataFrame) (base : DataFrame) (t : Snapshot) (u : string) :
  ds1 <> [] -> ds2 <> [] ->
  option_Forall2 Qeq
    (df_at (scopf_dispatch (ds1 ++ ds2) base) t u)
    (df_at (scopf_dispatch [scopf_dispatch ds1 base; scopf_dispatch ds2 base] base) t u).
Proof.
  intros H1 H2.
  rewrite (scopf_dispatch_cell (ds1 ++ ds2))
    by (destruct ds1; [congruence | discriminate]).
  rewrite (scopf_dispatch_cell [scopf_dispatch ds1 base; scopf_dispatch ds2 base])
    by discriminate.
  replace (observed (ds1 ++ ds2) t u) with (observed ds1 t u ++ observed ds2 t u)
    by (unfold observed; now rewrite flat_map_app).
  replace (observed [scopf_dispatch ds1 base; scopf_dispatch ds2 base] t u)
    with (cells (scopf_dispatch ds1 base) t u ++ cells (scopf_dispatch ds2 base) t u)
    by (unfold observed; simpl; now rewrite app_nil_r).
  assert (Hc : forall ds, ds <> [] ->
             cells (scopf_dispatch ds base) t u = option_list (max_of (observed ds t u))).
  { intros ds Hne. rewrite <- scopf_dispatch_cell with (base := base) by exact Hne.
    apply cells_of_unique. destruct ds; [congruence|]. apply groupby_index_NoDup. }
  rewrite !Hc by assumption. apply max_of_stages.
Qed.

Lemma scopf_dispatch_in_stages_witness :
  option_Forall2 Qeq
    (df_at (scopf_dispatch ([[(0%nat, [("G1", 30%Q)])]; [(0%nat, [("G1", 55%Q)])]]
                            ++ [[(0%nat, [("G1", 40%Q)])]]) []) 0%nat "G1")
    (df_at (scopf_dispatch
              [scopf_dispatch [[(0%nat, [("G1", 30%Q)])]; [(0%nat, [("G1", 55%Q)])]] [];
               scopf_dispatch [[(0%nat, [("G1", 40%Q)])]] []] []) 0%nat "G1").
Proof.
  apply (scopf_dispatch_in_stages
           [[(0%nat, [("G1", 30%Q)])]; [(0%nat, [("G1", 55%Q)])]]
           [[(0%nat, [("G1", 40%Q)])]] [] 0%nat "G1"); discriminate.
Defined.

(** ** The shedding total of a pass *)

Lemma Qsum_nonneg (vs : list Q) : Forall (fun v => (0 <= v)%Q) vs -> (0 <= Qsum vs)%Q.
Proof.
  induction 1 as [|v vs Hv _ IH]; simpl; [apply Qle_refl|].
  replace 0%Q with (0 + 0)%Q by reflexivity. now apply Qplus_le_compat.
Qed.

Lemma shedding_row_nonneg (row : Row) :
  Forall (fun cv => (0 <= snd cv)%Q) row ->
  (0 <= Qsum (map snd (filter (fun cv => contains "Unserved" (fst cv)) row)))%Q.
Proof.
  intros H. apply Qsum_nonneg. apply List.Forall_forall. intros v Hv.
  apply in_map_iff in Hv as (cv & <- & Hcv).
  apply list_elem_of_In, list_elem_of_filter in Hcv as [_ Hcv].
  rewrite List.Forall_forall in H. apply H. now apply list_elem_of_In.
Qed.

(** X5. [unserved_sum] (line 111, [.values[0]]) is the shedding total of
    the first row only: it is unchanged when the later rows are dropped
    and, for a non-negative dispatch, it lies between 0 and the total over
    all periods. *)
Theorem unserved_sum_counts_first_period (p : DataFrame) (u : Q) :
  nonnegative p ->
  unserved_sum p = Some u ->
  (0 <= u)%Q /\ (u <= unserved_energy p)%Q /\
  unserved_sum (take 1 p) = Some u.
Proof.
  intros Hp Hu. destruct p as [|[t row] rest]; [discriminate|].
  unfold unserved_sum, unserved_energy in *. simpl in *. injection Hu as <-.
  apply List.Forall_cons_iff in Hp as [Hrow Hrest]. simpl in Hrow.
  split; [now apply shedding_row_nonneg|]. split; [|reflexivity].
  rewrite <- (Qplus_0_r (Qsum _)) at 1.
  apply Qplus_le_compat; [apply Qle_refl|].
  apply Qsum_nonneg. apply List.Forall_forall. intros v Hv.
  apply in_map_iff in Hv as ([t' s'] & <- & Hin).
  apply in_map_iff in Hin as ([t'' r''] & [= <- <-] & Hin).
  apply in_map_iff in Hin as ([t3 r3] & [= <- <-] & Hin). simpl.
  apply shedding_row_nonneg. rewrite List.Forall_forall in Hrest.
  now apply (Hrest (t3, r3)).
Qed.

Lemma unserved_sum_counts_first_period_witness :
  (5 <= unserved_energy [(0%nat, [("G0", 7%Q); ("Unserved_0", 5%Q)]);
                         (1%nat, [("G0", 0%Q); ("Unserved_0", 12%Q)])])%Q /\
  (unserved_energy [(0%nat, [("G0", 7%Q); ("Unserved_0", 5%Q)]);
                    (1%nat, [("G0", 0%Q); ("Unserved_0", 12%Q)])] == 17)%Q.
Proof.
  split; [|vm_compute; reflexivity].
  apply (unserved_sum_counts_first_period
           [(0%nat, [("G0", 7%Q); ("Unserved_0", 5%Q)]);
            (1%nat, [("G0", 0%Q); ("Unserved_0", 12%Q)])] 5%Q).
  - repeat first [apply List.Forall_cons | apply List.Forall_nil];
      unfold Qle; simpl; discriminate.
  - reflexivity.
Defined.

Lemma prefix_app (s name : string) :
  String.prefix s name = true <-> exists post, name = s +:+ post.
Proof.
  revert name. induction s as [|a s IH]; intros name; simpl.
  - split; [intros _; now exists name | intros _; now destruct name].
  - destruct name as [|b name]; simpl.
    + split; [discriminate | intros [post H]; discriminate].
    + destruct (Ascii.ascii_dec a b) as [-> | Hne].
      * rewrite IH. split; intros [post H]; exists post; [now rewrite H | now injection H].
      * split; [discriminate | intros [post H]; injection H; congruence].
Qed.

(** X6. The column filter of line 111 ([filter(like=s)]) keeps a name
    exactly when [s] occurs in it as a substring. *)
Theorem contains_is_substring (s name : string) :
  contains s name = true <-> exists pre post, name = pre +:+ s +:+ post.
Proof.
  induction name as [|b name IH].
  - change (contains s "") with (String.prefix s "" || false).
    rewrite orb_false_r, prefix_app. split.
    + intros [post H]. exists "", post. exact H.
    + intros (pre & post & H). destruct pre; simpl in H; [eauto | discriminate].
  - change (contains s (String b name))
      with (String.prefix s (String b name) || contains s name).
    rewrite orb_true_iff, prefix_app, IH. split.
    + intros [[post H] | (pre & post & H)].
      * exists "", post. exact H.
      * exists (String b pre), post. simpl. now rewrite H.
    + intros (pre & post & H). destruct pre as [|c pre]; simpl in H.
      * left. eauto.
      * right. injection H as -> ->. eauto.
Qed.

(** ** The bars of the plot *)

(** X9. The bar loop of lines 135-143 in closed form: when each of G0..G3
    is a column of the base frame or of the plan and both frames have a
    row, it yields the eight bars in the order G0 base, G0 SCOPF, ..., each
    with the value of the first row (missing where the frame lacks the
    column); otherwise it raises IndexError.  It never changes the
    state. *)
Theorem plot_bars_spec (ofp scopf : DataFrame) (w : World) :
  plot_bars ofp scopf w =
  if forallb (fun g => existsb (String.eqb g) (df_columns (pd_concat [ofp; scopf])))
       plotted
  then match ofp, scopf with
       | (_, r1) :: _, (_, r2) :: _ =>
           Ok (flat_map (fun g => [(g, "Base OPF", row_get g r1);
                                   (g, "Strict SCOPF", row_get g r2)]) plotted) w
       | _, _ => Raise IndexError w
       end
  else Raise IndexError w.
Proof.
  unfold plot_bars, bar_of, plotted.
  remember (df_columns (pd_concat [ofp; scopf])) as cols eqn:Hcols. clear Hcols.
  cbn [forallb list_prod map app for_each fst snd flat_map].
  destruct (existsb (String.eqb "G0") cols), (existsb (String.eqb "G1") cols),
    (existsb (String.eqb "G2") cols), (existsb (String.eqb "G3") cols),
    ofp as [|[t1 r1] ofp], scopf as [|[t2 r2] scopf]; reflexivity.
Qed.

Lemma plot_bars_raises (ofp scopf : DataFrame) (w : World) e w' :
  plot_bars ofp scopf w = Raise e w' -> e = IndexError /\ w' = w.
Proof.
  unfold plot_bars, bar_of.
  remember (df_columns (pd_concat [ofp; scopf])) as cols eqn:Hcols. clear Hcols.
  cbn [list_prod map app for_each fst snd].
  destruct (existsb (String.eqb "G0") cols), (existsb (String.eqb "G1") cols),
    (existsb (String.eqb "G2") cols), (existsb (String.eqb "G3") cols),
    ofp as [|[t1 r1] ofp], scopf as [|[t2 r2] scopf];
    intros H; cbv in H; try discriminate H; now injection H as <- <-.
Qed.

(** ** The guard in front of the shedding generators *)

Lemma in_index_app {A} (name : string) (t1 t2 : list (string * A)) :
  in_index name (t1 ++ t2) = in_index name t1 || in_index name t2.
Proof. unfold in_index. apply existsb_app. Qed.

Lemma in_index_In {A} (name : string) (t : list (string * A)) :
  in_index name t = true <-> In name (map fst t).
Proof.
  unfold in_index. rewrite existsb_exists. split.
  - intros ([k a] & Hin & Heq). apply String.eqb_eq in Heq. simpl in Heq. subst k.
    apply in_map_iff. now exists (name, a).
  - intros Hin. apply in_map_iff in Hin as ([k a] & <- & Hin).
    exists (k, a). split; [exact Hin | apply String.eqb_refl].
Qed.

Lemma ensure_unserved_in_spec (bus : string) (v v' : Network) :
  ensure_unserved_in bus v = inr v' ->
  in_index ("Unserved_" +:+ bus) (generators v') = true /\
  (v' = v \/
   in_index ("Unserved_" +:+ bus) (generators v) = false /\
   generators v' = generators v ++ [("Unserved_" +:+ bus, unserved_generator bus)]).
Proof.
  unfold ensure_unserved_in, add_Generator, add_row.
  destruct (in_index _ (generators v)) eqn:E; simpl.
  - intros [= <-]. auto.
  - intros [= <-]. simpl. split; [|now right].
    rewrite in_index_app, E. simpl. now rewrite String.eqb_refl.
Qed.

Lemma ensure_all_spec (bs : list string) : forall v v' : Network,
  ensure_all bs v = inr v' ->
  (exists added, generators v' = generators v ++ added /\
     Forall (fun ng => In (gen_bus (snd ng)) bs /\
                       fst ng = "Unserved_" +:+ gen_bus (snd ng) /\
                       snd ng = unserved_generator (gen_bus (snd ng)) /\
                       in_index (fst ng) (generators v) = false) added /\
     NoDup (map fst added)) /\
  Forall (fun bus => in_index ("Unserved_" +:+ bus) (generators v') = true) bs.
Proof.
  induction bs as [|bus bs IH]; intros v v' H; simpl in H.
  - injection H as <-. split; [|constructor].
    exists []. rewrite app_nil_r. repeat split; constructor.
  - destruct (ensure_unserved_in bus v) as [e|v1] eqn:E1; [discriminate|].
    destruct (IH _ _ H) as ((added & Hgen & Hadded & Hnd) & Hall).
    destruct (ensure_unserved_in_spec _ _ _ E1) as [Hin Hstep].
    split.
    + destruct Hstep as [-> | [Hnot Hg1]].
      * exists added. split; [exact Hgen|]. split; [|exact Hnd].
        eapply List.Forall_impl; [|exact Hadded]. simpl.
        intros ng (Hb & Hn & Hs & Hi). auto.
      * exists (("Unserved_" +:+ bus, unserved_generator bus) :: added).
        rewrite Hgen, Hg1, <- app_assoc. split; [reflexivity|]. split.
        -- constructor; [simpl; auto|].
           eapply List.Forall_impl; [|exact Hadded]. simpl.
           intros ng (Hb & Hn & Hs & Hi). rewrite Hg1, in_index_app in Hi.
           apply orb_false_iff in Hi as [Hi _]. auto.
        -- simpl. constructor; [|exact Hnd].
           rewrite list_elem_of_In. intros Hc.
           apply in_map_iff in Hc as (ng & Hname & Hng).
           rewrite List.Forall_forall in Hadded.
           destruct (Hadded ng Hng) as (_ & _ & _ & Hi).
           rewrite Hname, Hin in Hi. discriminate.
    + constructor; [|exact Hall].
      rewrite Hgen, in_index_app, Hin. reflexivity.
Qed.

Lemma ensure_all_fixed (bs : list string) : forall v : Network,
  Forall (fun bus => in_index ("Unserved_" +:+ bus) (generators v) = true) bs ->
  ensure_all bs v = inr v.
Proof.
  induction bs as [|bus bs IH]; intros v H; simpl; [reflexivity|].
  apply List.Forall_cons_iff in H as [Hb H].
  unfold ensure_unserved_in. rewrite Hb. simpl. now apply IH.
Qed.

(** X10. The scenario build keeps every generator of the base network, in
    order, and appends only shedding generators: each appended row is the
    script's shedding generator of a bus of the network, under the name
    "Unserved_<bus>", a name no base generator has; the appended names are
    distinct.  Afterwards every bus has a generator of its guard name, and
    running the guard loop again adds nothing. *)
Theorem guard_adds_missing_shedding_only (b : Network) (line : string) :
  exists m added,
    scenario_network b line = inr m /\
    generators m = generators b ++ added /\
    Forall (fun ng => In (gen_bus (snd ng)) (map fst (buses b)) /\
                      snd ng = unserved_generator (gen_bus (snd ng)) /\
                      fst ng = "Unserved_" +:+ gen_bus (snd ng) /\
                      ~ In (fst ng) (map fst (generators b))) added /\
    NoDup (map fst added) /\
    Forall (fun bus => In ("Unserved_" +:+ bus) (map fst (generators m)))
           (map fst (buses b)) /\
    ensure_all (map fst (buses m)) m = inr m.
Proof.
  destruct (scenario_network_total b line) as (m & Hm & _ & Hbuses & _).
  unfold scenario_network in Hm. simpl in Hm.
  destruct (ensure_all_spec _ _ _ Hm) as ((added & Hgen & Hadded & Hnd) & Hall).
  simpl in Hgen, Hadded. exists m, added.
  split; [exact Hm|]. split; [exact Hgen|]. split; [|split; [exact Hnd|split]].
  - eapply List.Forall_impl; [|exact Hadded]. simpl.
    intros ng (Hb & Hn & Hs & Hi). repeat split; auto.
    rewrite <- in_index_In, Hi. discriminate.
  - eapply List.Forall_impl; [|exact Hall]. simpl.
    intros bus Hi. now apply in_index_In.
  - rewrite Hbuses. now apply ensure_all_fixed.
Qed.

Lemma append_inj_l (s a b : string) : s +:+ a = s +:+ b -> a = b.
Proof. induction s as [|c s IH]; simpl; [auto|]. intros [= H]. auto. Qed.

Lemma str_head (j : nat) : String.prefix "B" (str j) = false.
Proof.
  unfold str, NilZero.string_of_uint. destruct (Nat.to_uint j); reflexivity.
Qed.

Lemma guard_name_is_no_base_name (i j : nat) :
  "Unserved_" +:+ ("Bus " +:+ str i) <> "Unserved_" +:+ str j.
Proof.
  intros H. apply append_inj_l in H.
  pose proof (str_head j) as Hj. rewrite <- H in Hj. discriminate.
Qed.

Lemma ensure_all_adds (bs : list string) : forall v : Network,
  NoDup bs ->
  (forall bus, In bus bs -> in_index ("Unserved_" +:+ bus) (generators v) = false) ->
  exists v', ensure_all bs v = inr v' /\
    generators v' = generators v ++
      map (fun bus => ("Unserved_" +:+ bus, unserved_generator bus)) bs.
Proof.
  induction bs as [|bus bs IH]; intros v Hnd Hfree; simpl.
  - exists v. now rewrite app_nil_r.
  - apply NoDup_cons in Hnd as [Hnotin Hnd].
    unfold ensure_unserved_in, add_Generator, add_row.
    rewrite (Hfree bus) by now left. simpl.
    destruct (IH (with_generators
                    (generators v ++ [("Unserved_" +:+ bus, unserved_generator bus)]) v)
                 Hnd) as (v' & Hrun & Hgen).
    + intros bus' Hin. simpl. rewrite in_index_app, (Hfree bus') by now right.
      simpl. rewrite orb_false_r. apply String.eqb_neq. intros Heq.
      apply append_inj_l in Heq. subst bus'.
      apply Hnotin. now apply list_elem_of_In.
    + exists v'. split; [exact Hrun|]. rewrite Hgen. simpl.
      now rewrite <- app_assoc.
Qed.

(** X11. The guard never recognises the base shedding generators.  For a
    network whose buses are named "Bus i" and whose generators are named
    "Unserved_j" or do not start with "Unserved_" (the naming of section
    1), every pass appends one more shedding generator per bus. *)
Theorem guard_misses_base_shedding (b : Network) (line : string) :
  NoDup (map fst (buses b)) ->
  Forall (fun nb => exists i, fst nb = "Bus " +:+ str i) (buses b) ->
  Forall (fun ng => (exists j, fst ng = "Unserved_" +:+ str j) \/
                    String.prefix "Unserved_" (fst ng) = false) (generators b) ->
  exists m, scenario_network b line = inr m /\
    generators m = generators b ++
      map (fun nb => ("Unserved_" +:+ fst nb, unserved_generator (fst nb))) (buses b).
Proof.
  intros Hnd Hbus Hgen. unfold scenario_network. simpl.
  destruct (ensure_all_adds (map fst (buses b))
              (with_lines (at_set_s_nom line 0 (lines b)) b) Hnd) as (m & Hm & Hg).
  - intros bus Hin. simpl. apply not_true_is_false. intros Hi.
    apply in_index_In in Hi. apply in_map_iff in Hi as (ng & Hname & Hng).
    apply in_map_iff in Hin as (nb & <- & Hnb).
    rewrite List.Forall_forall in Hbus, Hgen.
    destruct (Hbus nb Hnb) as [i Hi]. rewrite Hi in Hname.
    destruct (Hgen ng Hng) as [[j Hj] | Hpre].
    + rewrite Hj in Hname. symmetry in Hname.
      now apply guard_name_is_no_base_name in Hname.
    + assert (Ht : String.prefix "Unserved_" (fst ng) = true)
        by (apply prefix_app; eauto).
      congruence.
  - exists m. split; [exact Hm|]. rewrite Hg. simpl. now rewrite map_map.
Qed.

Lemma guard_misses_base_shedding_witness :
  exists m, scenario_network base_network "Line_1_2" = inr m /\
            length (generators m) = 14%nat.
Proof.
  destruct (guard_misses_base_shedding base_network "Line_1_2") as (m & Hm & Hg).
  - apply (bool_decide_unpack _). vm_compute. exact I.
  - repeat constructor; simpl;
      [exists 0%nat | exists 1%nat | exists 2%nat | exists 3%nat | exists 4%nat];
      reflexivity.
  - repeat (constructor;
            [first [ right; reflexivity
                   | left; exists 0%nat; reflexivity
                   | left; exists 1%nat; reflexivity
                   | left; exists 2%nat; reflexivity
                   | left; exists 3%nat; reflexivity
                   | left; exists 4%nat; reflexivity ]|]).
    constructor.
  - exists m. split; [exact Hm|]. rewrite Hg. reflexivity.
Defined.

(** ** How a pass and the loop end *)

(** X12. A pass whose solve leaves an objective: with a dispatch frame of
    at least one row it appends cost, frame and the shedding total of the
    first row (0 when no column is a shedding column); with an empty frame
    [.values[0]] raises IndexError.  Nothing is printed either way. *)
Theorem feasible_pass_needs_a_dispatch_row
    (optimize : Network -> SolveOutcome) (line : string) (acc : Collected)
    (w : World) (b m : Network) (st : string * string) (c : Q) (p : DataFrame) :
  files w !! base_network_nc = Some b ->
  scenario_network b line = inr m ->
  optimize m = Returned st (Some c) p ->
  exists w', stdout w' = stdout w /\
    contingency optimize line acc w =
    match p with
    | [] => Raise IndexError w'
    | (_, row) :: _ =>
        Ok (push c p (Qsum (map snd (filter (fun cv => contains "Unserved" (fst cv)) row)))
              acc) w'
    end.
Proof.
  intros Hf Hm Hopt.
  destruct (contingency_spec optimize line acc w b Hf) as (w' & _ & _ & Hv).
  unfold verdict in Hv. rewrite Hm, Hopt in Hv. exists w'.
  destruct p as [|[t row] rest]; simpl in Hv; destruct Hv as [Hrun Hout]; auto.
Qed.

Lemma feasible_pass_needs_a_dispatch_row_witness :
  exists w',
    contingency shedding_solver "Line_0_1" nothing_collected
      (process_start {[base_network_nc := set_snapshots [] base_network]})
    = Raise IndexError w' /\ stdout w' = [].
Proof.
  assert (Hm : exists m st c,
             scenario_network (set_snapshots [] base_network) "Line_0_1" = inr m /\
             shedding_solver m = Returned st (Some c) []).
  { eexists _, _, _. split; vm_compute; reflexivity. }
  destruct Hm as (m & st & c & Hm & Hs).
  destruct (feasible_pass_needs_a_dispatch_row shedding_solver "Line_0_1"
              nothing_collected
              (process_start {[base_network_nc := set_snapshots [] base_network]})
              (set_snapshots [] base_network) m st c [])
    as (w' & Hout & Hrun).
  - vm_compute; reflexivity.
  - exact Hm.
  - exact Hs.
  - exists w'. split; [exact Hrun | exact Hout].
Defined.

Lemma collect_total (lvs : list (string * Verdict)) : forall acc,
  forallb (fun lv => negb (is_fatal (snd lv))) lvs = true ->
  exists acc', collect lvs acc = inr acc'.
Proof.
  induction lvs as [|[l v] lvs IH]; intros acc H; simpl in *; [eauto|].
  apply andb_true_iff in H as [Hv H]. destruct v; simpl in *; try discriminate; eauto.
Qed.

Lemma collect_no_fatal (lvs : list (string * Verdict)) : forall acc acc',
  collect lvs acc = inr acc' ->
  forallb (fun lv => negb (is_fatal (snd lv))) lvs = true.
Proof.
  induction lvs as [|[l v] lvs IH]; intros acc acc' H; simpl in *; [reflexivity|].
  destruct v; simpl in *; try discriminate; eauto.
Qed.

Lemma results_partition (lvs : list (string * Verdict)) :
  forallb (fun lv => negb (is_fatal (snd lv))) lvs = true ->
  (length (feasible_results lvs) + length (infeasible_candidates lvs) = length lvs)%nat.
Proof.
  induction lvs as [|[l v] lvs IH]; simpl; [reflexivity|].
  intros H. apply andb_true_iff in H as [Hv H]. specialize (IH H).
  unfold feasible_results, infeasible_candidates in *. simpl.
  destruct v; simpl in *; try discriminate; rewrite ?length_app; simpl; lia.
Qed.

(** X13. When the loop completes, the three lists have grown by the same
    number [k] of entries and standard output by [length cs - k] lines:
    every candidate left either one entry in each list or one notice. *)
Theorem every_candidate_is_accounted_for
    (optimize : Network -> SolveOutcome) (cs : list string)
    (acc : Collected) (w : World) (b : Network) (acc' : Collected) (w' : World) :
  files w !! base_network_nc = Some b ->
  for_each cs (contingency optimize) acc w = Ok acc' w' ->
  exists k, (k <= length cs)%nat /\
    length (c_costs acc') = (length (c_costs acc) + k)%nat /\
    length (c_dispatches acc') = (length (c_dispatches acc) + k)%nat /\
    length (c_unserved acc') = (length (c_unserved acc) + k)%nat /\
    length (stdout w') = (length (stdout w) + (length cs - k))%nat.
Proof.
  intros Hf Hrun.
  destruct (loop_spec optimize cs acc w b Hf) as (w1 & _ & Hout & Heq).
  rewrite Hrun in Heq.
  destruct (collect (verdicts optimize b cs) acc) as [e|acc1] eqn:Hc; [discriminate|].
  injection Heq as -> ->.
  pose proof (results_partition _ (collect_no_fatal _ _ _ Hc)) as Hpart.
  destruct (collect_app _ _ _ Hc) as (Hcosts & Hdisp & Huns & Htr).
  exists (length (feasible_results (verdicts optimize b cs))).
  unfold verdicts in Hpart at 3. rewrite length_map in Hpart.
  rewrite Hcosts, Hdisp, Huns, Hout, Htr, !length_app, !length_map.
  repeat split; lia.
Qed.

Lemma every_candidate_is_accounted_for_witness :
  exists k acc' w',
    for_each ["Line_0_1"; "Line_1_4"; "Line_1_2"] (contingency outage_averse_solver)
      nothing_collected (process_start {[base_network_nc := base_network]})
    = Ok acc' w' /\
    length (c_costs acc') = k /\ length (stdout w') = (3 - k)%nat.
Proof.
  destruct (for_each ["Line_0_1"; "Line_1_4"; "Line_1_2"]
              (contingency outage_averse_solver) nothing_collected
              (process_start {[base_network_nc := base_network]}))
    as [acc' w' | e w'] eqn:E.
  - destruct (every_candidate_is_accounted_for outage_averse_solver
                ["Line_0_1"; "Line_1_4"; "Line_1_2"] nothing_collected
                (process_start {[base_network_nc := base_network]})
                base_network acc' w') as (k & _ & Hc & _ & _ & Hout).
    + vm_compute; reflexivity.
    + exact E.
    + exists k, acc', w'. split; [reflexivity|]. split; [exact Hc | exact Hout].
  - vm_compute in E. discriminate.
Defined.

Lemma feasible_results_perm (optimize : Network -> SolveOutcome) (b : Network)
    (cs cs' : list string) :
  cs ≡ₚ cs' ->
  feasible_results (verdicts optimize b cs) ≡ₚ feasible_results (verdicts optimize b cs').
Proof.
  intros Hp. unfold feasible_results, verdicts.
  apply Permutation_flat_map. now apply Permutation_map.
Qed.

Lemma no_fatal_perm (lvs lvs' : list (string * Verdict)) :
  lvs ≡ₚ lvs' ->
  forallb (fun lv => negb (is_fatal (snd lv))) lvs = true ->
  forallb (fun lv => negb (is_fatal (snd lv))) lvs' = true.
Proof.
  intros Hp. rewrite !forallb_forall. intros H x Hx. apply H.
  eapply Permutation_in; [symmetry|]; eauto.
Qed.

(** X14. The order of the candidates does not matter: if the loop
    completes on [cs], it completes on every permutation of [cs], with the
    same costs, shedding totals and notices up to order, and with the same
    conservative plan cell by cell. *)
Theorem plan_independent_of_candidate_order
    (optimize : Network -> SolveOutcome) (cs cs' : list string)
    (w : World) (b : Network) (acc1 : Collected) (w1 : World) :
  files w !! base_network_nc = Some b ->
  cs ≡ₚ cs' ->
  for_each cs (contingency optimize) nothing_collected w = Ok acc1 w1 ->
  exists acc2 w2,
    for_each cs' (contingency optimize) nothing_collected w = Ok acc2 w2 /\
    c_costs acc1 ≡ₚ c_costs acc2 /\
    c_unserved acc1 ≡ₚ c_unserved acc2 /\
    stdout w1 ≡ₚ stdout w2 /\
    forall base t u,
      option_Forall2 Qeq (df_at (scopf_dispatch (c_dispatches acc1) base) t u)
                         (df_at (scopf_dispatch (c_dispatches acc2) base) t u).
Proof.
  intros Hf Hp Hrun.
  destruct (loop_spec optimize cs nothing_collected w b Hf) as (wa & _ & Hout & Heq).
  rewrite Hrun in Heq.
  destruct (collect (verdicts optimize b cs) nothing_collected) as [e|a1] eqn:Hc;
    [discriminate|]. injection Heq as -> ->.
  assert (Hnf : forallb (fun lv => negb (is_fatal (snd lv))) (verdicts optimize b cs')
                = true).
  { eapply no_fatal_perm; [|eapply collect_no_fatal; eauto].
    unfold verdicts. now apply Permutation_map. }
  destruct (collect_total _ nothing_collected Hnf) as [a2 Hc2].
  destruct (loop_spec optimize cs' nothing_collected w b Hf) as (wb & _ & Hout2 & Heq2).
  rewrite Hc2 in Heq2. exists a2, wb. split; [exact Heq2|].
  destruct (collect_app _ _ _ Hc) as (Hcosts & Hdisp & Huns & Htr).
  destruct (collect_app _ _ _ Hc2) as (Hcosts2 & Hdisp2 & Huns2 & Htr2).
  pose proof (feasible_results_perm optimize b cs cs' Hp) as Hfr.
  simpl in *.
  rewrite Hcosts, Hcosts2, Huns, Huns2, Hdisp, Hdisp2, Hout, Hout2, Htr, Htr2.
  split; [now apply Permutation_map|]. split; [now apply Permutation_map|].
  split.
  - apply Permutation_app_head, Permutation_map.
    unfold infeasible_candidates, verdicts.
    apply Permutation_flat_map. now apply Permutation_map.
  - intros base t u.
    set (d1 := map _ (feasible_results (verdicts optimize b cs))).
    set (d2 := map _ (feasible_results (verdicts optimize b cs'))).
    assert (Hd : d1 ≡ₚ d2) by (now apply Permutation_map).
    clearbody d1 d2. destruct d1 as [|d d1].
    + apply Permutation_nil in Hd. subst d2. simpl.
      destruct (df_at base t u); constructor. reflexivity.
    + assert (Hne : d2 <> []).
      { intros ->. apply Permutation_nil_r in Hd. discriminate. }
      rewrite !scopf_dispatch_cell by (auto; discriminate).
      apply max_of_Permutation. unfold observed. now apply Permutation_flat_map.
Qed.

Lemma plan_independent_of_candidate_order_witness :
  exists acc2 w2,
    for_each ["Line_1_4"; "Line_0_1"] (contingency shedding_solver)
      nothing_collected (process_start {[base_network_nc := base_network]})
    = Ok acc2 w2.
Proof.
  destruct (for_each ["Line_0_1"; "Line_1_4"] (contingency shedding_solver)
              nothing_collected (process_start {[base_network_nc := base_network]}))
    as [acc1 w1 | e w1] eqn:E.
  - destruct (plan_independent_of_candidate_order shedding_solver
                ["Line_0_1"; "Line_1_4"] ["Line_1_4"; "Line_0_1"]
                (process_start {[base_network_nc := base_network]})
                base_network acc1 w1) as (acc2 & w2 & Hrun & _).
    + vm_compute; reflexivity.
    + apply perm_swap.
    + exact E.
    + exists acc2, w2. exact Hrun.
  - vm_compute in E. discriminate.
Defined.

(** ** How the script ends *)

Lemma verdict_fatal (optimize : Network -> SolveOutcome) (b : Network) (line : string) e :
  verdict optimize b line = Fatal e -> exists msg, e = SolverFault msg \/ e = IndexError.
Proof.
  unfold verdict. destruct (scenario_network_total b line) as (m & -> & _).
  destruct (optimize m) as [st [c|] p | msg].
  - destruct (unserved_sum p); [discriminate|]. intros [= <-]. exists "". auto.
  - discriminate.
  - intros [= <-]. eauto.
Qed.

Lemma collect_err (lvs : list (string * Verdict)) : forall acc e,
  collect lvs acc = inl e -> exists l, In (l, Fatal e) lvs.
Proof.
  induction lvs as [|[l v] lvs IH]; intros acc e H; simpl in H; [discriminate|].
  destruct v.
  - destruct (IH _ _ H) as [l' Hl]. exists l'. now right.
  - destruct (IH _ _ H) as [l' Hl]. exists l'. now right.
  - injection H as ->. exists l. now left.
Qed.

Lemma collect_script_exception (optimize : Network -> SolveOutcome) (b : Network)
    (cs : list string) acc e :
  collect (verdicts optimize b cs) acc = inl e -> script_exception e = true.
Proof.
  intros H. apply collect_err in H as [l Hl].
  unfold verdicts in Hl. apply in_map_iff in Hl as (line & [= _ Hv] & _).
  apply verdict_fatal in Hv as [msg [-> | ->]]; reflexivity.
Qed.

Lemma trace_is_notices (lvs : list (string * Verdict)) :
  exists ls, trace lvs = map infeasible_notice ls /\ incl ls (map fst lvs).
Proof.
  induction lvs as [|[l v] lvs (ls & Htr & Hincl)]; simpl.
  - exists []. split; [reflexivity | apply incl_nil_l].
  - destruct v.
    + exists ls. split; [exact Htr | now apply incl_tl].
    + exists (l :: ls). split; [simpl; now rewrite Htr|].
      apply incl_cons; [now left | now apply incl_tl].
    + exists []. split; [reflexivity | apply incl_nil_l].
Qed.

Lemma np_max_raises (xs : list Q) e : np_max xs = inl e -> script_exception e = true.
Proof. unfold np_max. destruct (max_of xs); [discriminate|]. now intros [= <-]. Qed.

Lemma finish_raises (v : Network) (acc : Collected) (w : World) e w' :
  finish v acc w = Raise e w' ->
  script_exception e = true /\ (objective v = None -> stdout w' = stdout w).
Proof.
  intros H. destruct (finish_observe v acc) as (r & Hr & Hobs).
  specialize (Hobs w). rewrite H in Hobs. simpl in Hobs.
  destruct r as [e0|bs].
  - injection Hobs as -> ->. split; [|reflexivity].
    specialize (Hr w). simpl in Hr. apply plot_bars_raises in Hr as [-> _].
    reflexivity.
  - rewrite print_summary_observe in Hobs.
    destruct (objective v) as [c|]; [|injection Hobs as -> ->; now split].
    split; [|discriminate].
    destruct (np_max (c_costs acc)) as [e1|mc] eqn:E1.
    { injection Hobs as -> _. eapply np_max_raises; eauto. }
    destruct (np_max (c_unserved acc)) as [e2|mu] eqn:E2.
    { injection Hobs as -> _. eapply np_max_raises; eauto. }
    discriminate.
Qed.

Lemma finish_unsolved (v : Network) (acc : Collected) (w : World) :
  objective v = None ->
  exists e w', finish v acc w = Raise e w' /\ script_exception e = true /\
               stdout w' = stdout w.
Proof.
  intros Hobj. destruct (finish v acc w) as [g w'|e w'] eqn:H.
  - exfalso. destruct (finish_observe v acc) as (r & Hr & Hobs).
    specialize (Hobs w). rewrite H in Hobs. simpl in Hobs.
    destruct r as [e0|bs]; [discriminate|].
    rewrite print_summary_observe, Hobj in Hobs. discriminate.
  - exists e, w'. destruct (finish_raises _ _ _ _ _ H) as [He Hout]. auto.
Qed.

(** X15. If the base solve returns without an objective, the script
    still runs the contingency loop, but it ends with an exception and
    prints no statistic: standard output gains only infeasibility notices
    of candidates. *)
Theorem unsolved_base_prints_no_statistic
    (optimize : Network -> SolveOutcome) (n : loc) (cs : list string)
    (w : World) (v0 : Network) (st : string * string) (p : DataFrame) :
  heap w !! n = Some v0 ->
  optimize v0 = Returned st None p ->
  exists e w' ls,
    analyse optimize n cs w = Raise e w' /\
    script_exception e = true /\
    stdout w' = stdout w ++ map infeasible_notice ls /\ incl ls cs.
Proof.
  intros Hn Hopt.
  destruct (analyse_spec optimize n cs w v0 st None p Hn Hopt) as (w1 & Hout & Hrun).
  destruct (trace_is_notices (verdicts optimize (with_solution None p v0) cs))
    as (ls & Htr & Hincl).
  assert (Hls : incl ls cs).
  { intros l Hl. apply Hincl in Hl. unfold verdicts in Hl.
    rewrite map_map in Hl. simpl in Hl. now rewrite map_id in Hl. }
  destruct (collect _ nothing_collected) as [e|acc] eqn:Hc.
  - exists e, w1, ls. split; [exact Hrun|]. split.
    + eapply collect_script_exception; eauto.
    + rewrite Hout, Htr. auto.
  - destruct (finish_unsolved (with_solution None p v0) acc w1 eq_refl)
      as (e & w' & Hfin & He & Hout').
    exists e, w', ls. rewrite Hrun, Hout', Hout, Htr. auto.
Qed.

Lemma unsolved_base_prints_no_statistic_witness :
  exists e w', main idle_solver (process_start ∅) = Raise e w' /\
               Forall (fun l => ~ is_stat l) (stdout w').
Proof.
  destruct (main_start idle_solver ∅) as (w0 & Hmain & Hheap & _ & _ & Hout).
  destruct (unsolved_base_prints_no_statistic idle_solver 0%nat contingency_lines w0
              base_network ("warning", "infeasible") (generators_t_p base_network)
              Hheap eq_refl) as (e & w' & ls & Hrun & _ & Hst & _).
  exists e, w'. split; [now rewrite Hmain|].
  rewrite Hst, Hout. simpl. apply List.Forall_forall. intros l Hl.
  apply in_map_iff in Hl as (x & <- & _). simpl. auto.
Defined.

(** X16. Sections 2 to 5, and the whole script, end with no other
    exception than a solver fault, IndexError, ValueError or TypeError: in
    particular never with the AssertionError of a duplicate [add] (the
    guard of line 101 prevents it) and never with a missing
    "base_network.nc" (it is written before it is read). *)
Theorem script_raises_no_assertion_or_file_error
    (optimize : Network -> SolveOutcome) :
  (forall (n : loc) (cs : list string) (w : World) e w',
     analyse optimize n cs w = Raise e w' -> script_exception e = true) /\
  (forall (fs : gmap string Network) e w',
     main optimize (process_start fs) = Raise e w' -> script_exception e = true).
Proof.
  assert (Han : forall (n : loc) (cs : list string) (w : World) e w',
             analyse optimize n cs w = Raise e w' -> script_exception e = true).
  { intros n cs w e w' H. destruct (heap w !! n) as [v0|] eqn:Hn.
    - destruct (optimize v0) as [st obj p|msg] eqn:Hopt.
      + destruct (analyse_spec optimize n cs w v0 st obj p Hn Hopt) as (w1 & _ & Hrun).
        rewrite H in Hrun.
        destruct (collect _ nothing_collected) as [e1|acc] eqn:Hc.
        * injection Hrun as -> _. eapply collect_script_exception; eauto.
        * symmetry in Hrun. now apply finish_raises in Hrun as [He _].
      + rewrite (analyse_failed optimize n cs w v0 msg Hn Hopt) in H.
        now injection H as <- _.
    - unfold analyse, call_optimize in H. rewrite !bind_unfold in H.
      unfold deref in H. rewrite Hn in H. now injection H as <- _. }
  split; [exact Han|]. intros fs e w' H.
  destruct (main_start optimize fs) as (w0 & Hmain & _). rewrite Hmain in H.
  eapply Han; eauto.
Qed.

Lemma script_raises_no_assertion_or_file_error_witness :
  exists e w', main brittle_solver (process_start ∅) = Raise e w' /\
               script_exception e = true.
Proof.
  destruct (main brittle_solver (process_start ∅)) as [g w' | e w'] eqn:E.
  - vm_compute in E. discriminate.
  - exists e, w'. split; [reflexivity|].
    exact (proj2 (script_raises_no_assertion_or_file_error brittle_solver) ∅ e w' E).
Defined.

(** ** What a run leaves on disk and in memory *)

Lemma print_summary_world (cost0 : option Q) (costs unserved : list Q) (w : World) :
  files (world_of (print_summary cost0 costs unserved w)) = files w /\
  heap (world_of (print_summary cost0 costs unserved w)) = heap w.
Proof.
  unfold print_summary. destruct cost0 as [c|]; [|split; reflexivity].
  destruct (np_max costs) as [e | mc]; [|destruct (np_max unserved) as [e | mu]];
    cbv beta iota delta
      [mbind mret py_bind py_ret bind ret raise print lift world_of files heap];
    split; reflexivity.
Qed.

Lemma finish_world (v : Network) (acc : Collected) (w : World) :
  files (world_of (finish v acc w)) = files w /\
  heap (world_of (finish v acc w)) = heap w.
Proof.
  destruct (plot_bars_pure (generators_t_p v)
              (scopf_dispatch (c_dispatches acc) (generators_t_p v))) as [r Hr].
  unfold finish. rewrite bind_unfold, Hr. destruct r as [e | bs]; [split; reflexivity|].
  cbv beta iota delta [lift mret py_ret ret]. rewrite bind_unfold.
  pose proof (print_summary_world (objective v) (c_costs acc) (c_unserved acc) w) as H.
  now destruct (print_summary (objective v) (c_costs acc) (c_unserved acc) w).
Qed.

(** X17. Once the base solve has returned, however the run ends: the
    file system differs from the initial one exactly in "base_network.nc",
    which holds the base network with its solution; the base object holds
    the same description; and every other object that existed before is
    unchanged. *)
Theorem run_leaves_solved_base_on_disk
    (optimize : Network -> SolveOutcome) (n : loc) (cs : list string)
    (w : World) (v0 : Network) (st : string * string) (obj : option Q) (p : DataFrame) :
  heap w !! n = Some v0 ->
  (n < next_loc w)%nat ->
  optimize v0 = Returned st obj p ->
  files (world_of (analyse optimize n cs w)) =
    <[base_network_nc := with_solution obj p v0]> (files w) /\
  heap (world_of (analyse optimize n cs w)) !! n = Some (with_solution obj p v0) /\
  (forall l, (l < next_loc w)%nat -> l <> n ->
     heap (world_of (analyse optimize n cs w)) !! l = heap w !! l).
Proof.
  intros Hn Hlt Hopt. set (b := with_solution obj p v0).
  set (w1 := set_obj n b w).
  set (w2 := {| heap := heap w1; next_loc := next_loc w1;
                files := <[base_network_nc := b]> (files w1);
                stdout := stdout w1 |}).
  assert (Hn1 : heap w1 !! n = Some b) by (simpl; apply lookup_insert_eq).
  destruct (loop_spec optimize cs nothing_collected w2 b) as (w' & P & _ & Hrun).
  { simpl. apply lookup_insert_eq. }
  assert (Heq : analyse optimize n cs w =
                match collect (verdicts optimize b cs) nothing_collected with
                | inr acc => finish b acc w'
                | inl e => Raise e w'
                end).
  { unfold analyse.
    rewrite bind_unfold, (call_optimize_spec optimize n v0 w Hn), Hopt.
    fold b. fold w1.
    rewrite bind_unfold, (deref_ok n b w1 Hn1).
    rewrite bind_unfold. unfold export_to_netcdf.
    rewrite bind_unfold, (deref_ok n b w1 Hn1).
    change (write_file base_network_nc b w1) with (Ok tt w2). cbv beta iota.
    rewrite bind_unfold, Hrun. fold b.
    now destruct (collect (verdicts optimize b cs) nothing_collected). }
  assert (Hw : files (world_of (analyse optimize n cs w)) = files w' /\
               heap (world_of (analyse optimize n cs w)) = heap w').
  { rewrite Heq. destruct (collect _ nothing_collected) as [e|acc];
      [split; reflexivity | apply finish_world]. }
  destruct Hw as [Hwf Hwh]. destruct P as (Pf & _ & Ph).
  rewrite Hwf, Hwh. split; [exact Pf|]. split.
  - etransitivity; [apply (Ph n Hlt) | exact Hn1].
  - intros l Hl Hne. etransitivity; [apply (Ph l Hl)|].
    simpl. now apply lookup_insert_ne.
Qed.

Lemma run_leaves_solved_base_on_disk_witness :
  exists v, files (world_of (main shedding_solver (process_start ∅)))
              !! base_network_nc = Some v /\
            heap (world_of (main shedding_solver (process_start ∅))) !! 0%nat = Some v.
Proof.
  destruct (main_start shedding_solver ∅) as (w0 & Hmain & Hheap & Hnext & Hfiles & _).
  destruct (shedding_solver base_network) as [st obj p|msg] eqn:Hs;
    [|vm_compute in Hs; discriminate].
  destruct (run_leaves_solved_base_on_disk shedding_solver 0%nat contingency_lines
              w0 base_network st obj p Hheap) as (Hf & Hh & _).
  - rewrite Hnext. lia.
  - exact Hs.
  - exists (with_solution obj p base_network). rewrite Hmain.
    split; [rewrite Hf; apply lookup_insert_eq | exact Hh].
Defined.

(** ** The wind profiles of case study 1 *)

Section WindBounds.

Import StressInputs.

Context {RngState : Type} (seed : nat -> RngState)
        (normal : Q -> Q -> nat -> RngState -> list Q * RngState).

Local Open Scope Q_scope.

Lemma np_clip_unit (xs : list Q) : Forall (fun v => 0 <= v /\ v <= 1) (np_clip xs 0 1).
Proof.
  unfold np_clip. apply List.Forall_forall. intros v Hv.
  apply in_map_iff in Hv as (x0 & <- & _). split.
  - apply Q.min_glb; [discriminate | apply Q.le_max_l].
  - apply Q.le_min_l.
Qed.

Lemma wind_values_unit : Forall (fun v => 0 <= v /\ v <= 1) (wind_values seed normal).
Proof.
  unfold wind_values. apply Forall_lookup_2. intros i v Hv.
  rewrite list_lookup_imap in Hv.
  destruct (np_clip _ 0 1 !! i) as [old|] eqn:Hold; [|discriminate].
  simpl in Hv. injection Hv as <-.
  destruct (in_slice 60 70 i); [split; discriminate|].
  pose proof (np_clip_unit (fst (normal 0.6 0.2 168%nat (seed 0%nat)))) as Hall.
  eapply Forall_lookup_1 in Hall; eauto.
Qed.

(** X18. Whatever the random generator draws, after lines 73-80 of case
    study 1 both wind profiles have the same length and values in [0, 1];
    the profile is 0.2 on hours 60-69; the storm profile is 0.3 times the
    profile on hours 60-99, equal to it elsewhere, and never above it. *)
Theorem wind_profiles_are_capacity_factors (st : State RngState) :
  let '(wind_profile, wind_storm, st') := wind_inputs seed normal st in
  exists prof storm,
    series st' !! wind_profile = Some prof /\
    series st' !! wind_storm = Some storm /\
    length storm = length prof /\
    Forall (fun v => 0 <= v /\ v <= 1) prof /\
    Forall (fun v => 0 <= v /\ v <= 1) storm /\
    (forall i a, prof !! i = Some a -> in_slice 60 70 i = true -> a = 0.2) /\
    (forall i a, prof !! i = Some a ->
       exists s, storm !! i = Some s /\ s <= a /\
                 s = if in_slice 60 100 i then a * 0.3 else a).
Proof.
  pose proof (wind_inputs_spec seed normal st) as H.
  destruct (wind_inputs seed normal st) as [[wp ws] st'].
  destruct H as (_ & Hp & Hs & _).
  pose proof wind_values_unit as Hunit.
  exists (wind_values seed normal),
         (imap (fun i old => if in_slice 60 100 i then old * 0.3 else old)
               (wind_values seed normal)).
  split; [exact Hp|]. split; [exact Hs|]. split; [apply length_imap|].
  split; [exact Hunit|]. split; [|split].
  - apply Forall_lookup_2. intros i v Hv. rewrite list_lookup_imap in Hv.
    apply fmap_Some in Hv as (a & Ha & ->).
    destruct (Forall_lookup_1 _ _ _ _ Hunit Ha) as [H0 H1].
    destruct (in_slice 60 100 i); [split; lra | now split].
  - intros i a Ha Hin. unfold wind_values in Ha. rewrite list_lookup_imap in Ha.
    destruct (np_clip _ 0 1 !! i); [|discriminate]. simpl in Ha.
    rewrite Hin in Ha. now injection Ha as <-.
  - intros i a Ha. rewrite list_lookup_imap, Ha. simpl.
    eexists. split; [reflexivity|]. split; [|reflexivity].
    destruct (Forall_lookup_1 _ _ _ _ Hunit Ha) as [H0 H1].
    destruct (in_slice 60 100 i); [lra | apply Qle_refl].
Qed.

End WindBounds.

(** * The infeasibility test of line 105, and the summary *)

Lemma ensure_all_keeps_solution (bs : list string) : forall v v' : Network,
  ensure_all bs v = inr v' ->
  objective v' = objective v /\ generators_t_p v' = generators_t_p v.
Proof.
  induction bs as [|bus bs IH]; intros v v' H; simpl in H.
  - now injection H as <-.
  - unfold ensure_unserved_in, add_Generator, add_row in H.
    destruct (negb (in_index _ (generators v))); [|eauto].
    destruct (in_index _ (generators v)); [discriminate|].
    apply IH in H as [-> ->]. now split.
Qed.

Lemma scenario_network_keeps_solution (b m : Network) (line : string) :
  scenario_network b line = inr m ->
  objective m = objective b /\ generators_t_p m = generators_t_p b.
Proof.
  unfold scenario_network. intros H.
  apply ensure_all_keeps_solution in H as [-> ->]. now split.
Qed.

(** What the test of line 105 sees, for any solver: when the file holds a
    solved base network and a solve assigns no solution, the objective is
    that of the base case; the pass prints nothing and appends the cost and
    the dispatch of the base case. *)
Lemma stale_objective_passes_the_test
    (optimize : Network -> SolveOutcome) (line : string) (acc : Collected)
    (w : World) (b m : Network) (st : string * string) (c : Q)
    (t : Snapshot) (row : Row) (rest : DataFrame) :
  files w !! base_network_nc = Some b ->
  objective b = Some c ->
  generators_t_p b = (t, row) :: rest ->
  scenario_network b line = inr m ->
  optimize m = left_as_loaded st m ->
  exists w' u,
    contingency optimize line acc w = Ok (push c (generators_t_p b) u acc) w' /\
    stdout w' = stdout w /\
    unserved_sum (generators_t_p b) = Some u.
Proof.
  intros Hf Hobj Hp Hm Hopt.
  destruct (scenario_network_keeps_solution _ _ _ Hm) as [Ho Hg].
  destruct (contingency_spec optimize line acc w b Hf) as (w' & _ & _ & Hv).
  unfold verdict in Hv. rewrite Hm, Hopt in Hv. unfold left_as_loaded in Hv.
  rewrite Ho, Hobj, Hg in Hv.
  destruct (unserved_sum (generators_t_p b)) as [u|] eqn:Hu.
  - destruct Hv as [Hrun Hout]. exists w', u. auto.
  - rewrite Hp in Hu. discriminate.
Qed.

(** ** Solves that assign no solution: runs of the script *)

Lemma merit_order_solves_base :
  merit_order_solver base_network =
  Returned ("ok", "optimal") (Some 4600%Q) (frame_of base_network merit_order_point).
Proof. vm_compute. reflexivity. Qed.

Lemma merit_order_reports_outages_infeasible
    (line : string) (obj : option Q) (p : DataFrame) :
  In line contingency_lines ->
  exists m,
    scenario_network (with_solution obj p base_network) line = inr m /\
    merit_order_solver m = left_as_loaded ("warning", "infeasible") m /\
    left_as_loaded ("warning", "infeasible") m = Returned ("warning", "infeasible") obj p.
Proof.
  intros Hin. simpl in Hin.
  repeat (destruct Hin as [<- | Hin];
          [eexists; split; [vm_compute; reflexivity|];
           split; vm_compute; reflexivity |]).
  destruct Hin.
Qed.

(** C2, at the failing input.  The solve of the outage of line 1-4 returns
    ("warning", "infeasible") and the solve of the outage of line 2-3
    returns ("warning", "unknown"); neither assigns a solution.  The script
    runs to its end: no notice is printed, no error is raised, and both
    candidates stand in the lists with the cost and the dispatch of the
    base case. *)
Theorem failed_solves_are_recorded_as_feasible :
  exists g out m1 m2,
    observe (main faulty_solver (process_start ∅)) = (inr g, out) /\
    scenario_network (with_solution (ofp_cost g) (ofp_dispatch g) base_network)
      "Line_1_4" = inr m1 /\
    faulty_solver m1 =
      Returned ("warning", "infeasible") (ofp_cost g) (ofp_dispatch g) /\
    scenario_network (with_solution (ofp_cost g) (ofp_dispatch g) base_network)
      "Line_2_3" = inr m2 /\
    faulty_solver m2 =
      Returned ("warning", "unknown") (ofp_cost g) (ofp_dispatch g) /\
    Forall is_stat out /\
    ofp_cost g = Some 4600%Q /\
    map Qred (scopf_costs g) = [2000000; 4600; 2000000; 4600; 2000000]%Q /\
    nth 1 (scopf_dispatches g) [] = ofp_dispatch g /\
    nth 3 (scopf_dispatches g) [] = ofp_dispatch g.
Proof.
  eexists _, _, _, _. split; [vm_compute; reflexivity|].
  split; [vm_compute; reflexivity|]. split; [vm_compute; reflexivity|].
  split; [vm_compute; reflexivity|]. split; [vm_compute; reflexivity|].
  split; [repeat (constructor; [exact I|]); constructor|].
  repeat split; vm_compute; reflexivity.
Qed.

(** C3, at the failing input.  The solve of the outage of line 1-4 is
    reported infeasible.  The candidate gets no notice; its entry, the
    cost 4600 and the shedding 0 of the base case, stands in the lists
    and enters the printed average cost and average unserved energy. *)
Theorem infeasible_outage_leaves_no_notice :
  exists g out m,
    observe (main radial_solver (process_start ∅)) = (inr g, out) /\
    scenario_network (with_solution (ofp_cost g) (ofp_dispatch g) base_network)
      "Line_1_4" = inr m /\
    radial_solver m =
      Returned ("warning", "infeasible") (ofp_cost g) (ofp_dispatch g) /\
    ~ In (infeasible_notice "Line_1_4") out /\
    map Qred (scopf_costs g) = [2000000; 4600; 2000000; 2000000; 2000000]%Q /\
    map Qred (scopf_unserved g) = [200; 0; 200; 200; 200]%Q /\
    nth 1 (scopf_dispatches g) [] = ofp_dispatch g /\
    out = [Stat "Base OPF cost:" (Some (round2 4600));
           Stat "Average SCOPF contingency cost:" (Some (round2 1600920));
           Stat "Worst-case SCOPF contingency cost:" (Some (round2 2000000));
           Stat "Average unserved energy (MW) in SCOPF cases:" (Some (round2 160));
           Stat "Max unserved energy (MW) in SCOPF cases:" (Some (round2 200))].
Proof.
  eexists _, _, _. split; [vm_compute; reflexivity|].
  split; [vm_compute; reflexivity|]. split; [vm_compute; reflexivity|].
  split.
  { intros Hin. repeat (destruct Hin as [Hin | Hin]; [discriminate Hin|]).
    destruct Hin. }
  repeat split; vm_compute; reflexivity.
Qed.

(** C4, at the failing input.  Every outage is reported infeasible.  Line
    115 does not take the fallback: the list of dispatches holds the base
    dispatch five times, the plan is the maximum over these five frames,
    and no notice is printed; the plan equals the base dispatch and
    nothing in the output tells that no outage was solved. *)
Theorem no_fallback_when_every_outage_is_infeasible :
  exists g out,
    observe (main merit_order_solver (process_start ∅)) = (inr g, out) /\
    Forall (fun line => exists m,
              scenario_network (with_solution (ofp_cost g) (ofp_dispatch g) base_network)
                line = inr m /\
              merit_order_solver m =
                Returned ("warning", "infeasible") (ofp_cost g) (ofp_dispatch g))
           contingency_lines /\
    Forall is_stat out /\
    scopf_dispatches g = repeat (ofp_dispatch g) 5 /\
    scopf_dispatch_plan g = groupby_level0_max (pd_concat (repeat (ofp_dispatch g) 5)) /\
    scopf_dispatch_plan g = ofp_dispatch g.
Proof.
  eexists _, _. split; [vm_compute; reflexivity|].
  split.
  { repeat (constructor; [eexists; split; vm_compute; reflexivity|]). constructor. }
  split; [repeat (constructor; [exact I|]); constructor|].
  repeat split; vm_compute; reflexivity.
Qed.

(** C8, at the failing input.  Every outage is reported infeasible, and
    every candidate is recorded with the cost and the dispatch of the base
    case.  The script raises nothing and prints all five statistics, with
    an average and a maximum unserved energy of 0. *)
Theorem statistics_printed_when_every_outage_is_infeasible :
  exists g,
    observe (main merit_order_solver (process_start ∅)) =
      (inr g,
       [Stat "Base OPF cost:" (Some (round2 4600));
        Stat "Average SCOPF contingency cost:" (Some (round2 4600));
        Stat "Worst-case SCOPF contingency cost:" (Some (round2 4600));
        Stat "Average unserved energy (MW) in SCOPF cases:" (Some (round2 0));
        Stat "Max unserved energy (MW) in SCOPF cases:" (Some (round2 0))]) /\
    Forall (fun line => recorded_pass merit_order_solver
              (with_solution (ofp_cost g) (ofp_dispatch g) base_network) line
            = Some (4600%Q, ofp_dispatch g)) contingency_lines /\
    Forall (fun line => exists m,
              scenario_network (with_solution (ofp_cost g) (ofp_dispatch g) base_network)
                line = inr m /\
              merit_order_solver m =
                Returned ("warning", "infeasible") (ofp_cost g) (ofp_dispatch g))
           contingency_lines /\
    map Qred (scopf_unserved g) = [0; 0; 0; 0; 0]%Q.
Proof.
  eexists. split; [vm_compute; reflexivity|].
  split.
  { repeat (constructor; [vm_compute; reflexivity|]). constructor. }
  split.
  { repeat (constructor; [eexists; split; vm_compute; reflexivity|]). constructor. }
  vm_compute. reflexivity.
Qed.

(** ** The summary, over the passes the loop recorded *)










